(** * CrisisGuard agent and URL scanner: a shallow embedding

    Sources embedded here:
    - [backend/crisisguard_agent_api.py]: the sliding-window counter, the
      seven detectors, confidence fusion, the action pipeline
      ([encrypt_and_store], [move_to_quarantine], [snapshot_and_alert]),
      the [/set_rates] endpoint and one iteration of [agent_loop];
    - [backend/detection3.py] and [backend/main.py]: the scheme-biased
      verdict of the URL scanner.

    Modelling conventions.
    - A [datetime] is an integer number of microseconds and a [timedelta]
      likewise; Python's range errors on dates outside the years 1..9999 are
      outside the model.  Every call of [datetime.utcnow()] is an explicit
      clock reading passed to the function that makes it.
    - A Python [float] is a real number: rounding, infinities and NaN are
      outside the model.  A Python [int] is a [Z].
    - A [pathlib.Path] is its list of components; the file system is a finite
      map from paths to contents plus the set of paths that cannot be opened
      for reading.
    - Code that can raise returns an outcome together with the file system it
      leaves behind, so that effects performed before the exception stay. *)

From Stdlib Require Import ZArith List String Reals Lra Lia.
From Stdlib.Strings Require Import Byte Ascii.
From stdpp Require Import gmap strings list fin_maps pretty.

Open Scope Z_scope.

(** ** Sliding-window counter *)

(** [timedelta(seconds=s)] in microseconds. *)
Definition timedelta_seconds (s : Z) : Z := s * 1000000.

(** [class SlidingWindowCounter]: [events] is the deque, oldest on the left. *)
Record SlidingWindowCounter := mkSWC {
  window : Z;
  events : list Z
}.

(** [__init__(self, window_seconds=30)] *)
Definition SlidingWindowCounter_init (window_seconds : Z) : SlidingWindowCounter :=
  {| window := timedelta_seconds window_seconds; events := [] |}.

(** [while self.events and self.events[0] < cutoff: self.events.popleft()] *)
Fixpoint popleft_while (cutoff : Z) (evs : list Z) : list Z :=
  match evs with
  | [] => []
  | e :: rest => if e <? cutoff then popleft_while cutoff rest else e :: rest
  end.

(** [_prune(self)], with [now] the reading of [datetime.utcnow()]. *)
Definition _prune (now : Z) (c : SlidingWindowCounter) : SlidingWindowCounter :=
  {| window := window c; events := popleft_while (now - window c) (events c) |}.

(** [add(self)]: the clock is read once for the appended timestamp and once
    more inside [_prune]. *)
Definition add (t_append t_prune : Z) (c : SlidingWindowCounter) : SlidingWindowCounter :=
  _prune t_prune {| window := window c; events := events c ++ [t_append] |}.

(** [count(self)]: prunes, then returns the length; the pruned counter is the
    second component. *)
Definition count (now : Z) (c : SlidingWindowCounter) : Z * SlidingWindowCounter :=
  let c' := _prune now c in (Z.of_nat (length (events c')), c').

(** A history of calls on one counter, each with the clock readings it makes. *)
Inductive swc_call :=
| CallAdd (t_append t_prune : Z)
| CallCount (now : Z).

Definition swc_step (c : SlidingWindowCounter) (op : swc_call) : SlidingWindowCounter :=
  match op with
  | CallAdd ta tp => add ta tp c
  | CallCount now => snd (count now c)
  end.

Definition swc_run (ops : list swc_call) (c : SlidingWindowCounter) : SlidingWindowCounter :=
  fold_left swc_step ops c.


(** The timestamps recorded by a history, in program order. *)
Definition swc_recorded (ops : list swc_call) : list Z :=
  flat_map (fun op => match op with
                      | CallAdd ta _ => [ta]
                      | CallCount _ => []
                      end) ops.


(** Membership of a timestamp in the closed window [[now - w, now]]. *)
Definition in_window (w now t : Z) : bool := (now - w <=? t) && (t <=? now).

(** ** File system and exceptions *)

Abbreviation Path := (list string) (only parsing).
Abbreviation Bytes := (list byte) (only parsing).

(** [files] holds the regular files that exist; a path in [unreadable] cannot
    be opened for reading even when it exists. *)
Record World := mkWorld {
  files : gmap (list string) (list byte);
  unreadable : gset (list string)
}.

Definition with_files (f : gmap (list string) (list byte)) (w : World) : World :=
  {| files := f; unreadable := unreadable w |}.

(** The result of a call that may raise. *)
Inductive outcome (A : Type) : Type :=
| Returned (a : A)
| Raised.
Arguments Returned {A} a.
Arguments Raised {A}.

(** [Path.name]: the last component. *)
Definition path_name (p : Path) : string := List.last p ""%string.

(** [dir / name] *)
Definition path_join (dir : Path) (name : string) : Path := dir ++ [name].

(** [p.exists()] *)
Definition path_exists (w : World) (p : Path) : bool :=
  bool_decide (is_Some (files w !! p)).

(** [with p.open('rb') as f: f.read()]; [None] when opening raises. *)
Definition open_read (w : World) (p : Path) : option Bytes :=
  if decide (p ∈ unreadable w) then None else files w !! p.

(** How a write of a whole file goes: it succeeds, or opening the destination
    raises, or the write raises after [written] bytes reached the file. *)
Inductive write_fate :=
| WriteOk
| OpenFails
| WriteFails (written : nat).

(** [with dest.open('wb') as out: out.write(data)] *)
Definition write_file (fate : write_fate) (dest : Path) (data : Bytes) (w : World)
  : outcome unit * World :=
  match fate with
  | WriteOk => (Returned tt, with_files (<[dest := data]> (files w)) w)
  | OpenFails => (Raised, w)
  | WriteFails written =>
      (Raised, with_files (<[dest := firstn written data]> (files w)) w)
  end.

(** [shutil.copy2(src, dst)]: raises [SameFileError] when both name the same
    file and an [OSError] when the source cannot be read. *)
Definition copy2 (fate : write_fate) (src dst : Path) (w : World) : outcome unit * World :=
  if decide (src = dst) then (Raised, w)
  else match open_read w src with
       | None => (Raised, w)
       | Some data => write_file fate dst data w
       end.

(** [path.unlink(missing_ok=True)] *)
Definition unlink (ok : bool) (p : Path) (w : World) : outcome unit * World :=
  if ok then (Returned tt, with_files (delete p (files w)) w) else (Raised, w).

(** What the host supplies: the install directory, the process-lifetime key,
    the AEAD primitive ([None] when [encrypt] raises), the two date formats
    and whether scikit-learn could be imported. *)
Class Host := {
  BASE_DIR : list string;
  AESGCM_KEY : list byte;
  aes_encrypt : list byte -> list byte -> list byte -> option (list byte);
  strftime_stamp : Z -> string;
  isoformat_Z : Z -> string;
  ML_AVAILABLE : bool
}.

Definition SANDBOX_DIR `{Host} : Path := path_join BASE_DIR "demo_sandbox".
Definition BACKUP_DIR `{Host} : Path := path_join BASE_DIR "demo_backups".
Definition QUARANTINE_DIR `{Host} : Path := path_join BASE_DIR "demo_quarantine".

(** [now_ts()] at clock reading [t]. *)
Definition now_ts `{Host} (t : Z) : string := isoformat_Z t.

(** The environment of one [encrypt_and_store] call. *)
Record snapshot_io := mkSnapshotIO {
  snap_mkdir_ok : bool;
  snap_nonce : list byte;
  snap_stamp : Z;
  snap_write : write_fate
}.

(** The file name [f"{filepath.name}.{stamp}.enc"]. *)
Definition snapshot_name `{Host} (filepath : Path) (stamp : Z) : string :=
  (path_name filepath ++ "." ++ strftime_stamp stamp ++ ".enc")%string.

(** [encrypt_and_store(filepath, backup_dir)].  The function has no [return]
    statement: a call that does not raise yields Python's [None], here [tt]. *)
Definition encrypt_and_store `{Host} (io : snapshot_io) (filepath backup_dir : Path)
    (w : World) : outcome unit * World :=
  if negb (snap_mkdir_ok io) then (Raised, w)
  else
    let nonce := snap_nonce io in
    match open_read w filepath with
    | None => (Raised, w)
    | Some data =>
        match aes_encrypt AESGCM_KEY nonce data with
        | None => (Raised, w)
        | Some ct =>
            let dest := path_join backup_dir (snapshot_name filepath (snap_stamp io)) in
            write_file (snap_write io) dest (nonce ++ ct) w
        end
    end.

(** The environment of one [move_to_quarantine] call; [quar_time] is
    [int(time.time())]. *)
Record quarantine_io := mkQuarantineIO {
  quar_mkdir_ok : bool;
  quar_time : Z;
  quar_copy : write_fate;
  quar_unlink_ok : bool
}.

(** [QUARANTINE_DIR / f"{path.name}.{int(time.time())}"] *)
Definition quarantine_dest `{Host} (io : quarantine_io) (path : Path) : Path :=
  path_join QUARANTINE_DIR (path_name path ++ "." ++ pretty (quar_time io))%string.

(** [move_to_quarantine(path)] *)
Definition move_to_quarantine `{Host} (io : quarantine_io) (path : Path) (w : World)
  : outcome (list string) * World :=
  if negb (quar_mkdir_ok io) then (Raised, w)
  else
    let dest := quarantine_dest io path in
    match copy2 (quar_copy io) path dest w with
    | (Raised, w1) => (Raised, w1)
    | (Returned _, w1) =>
        match unlink (quar_unlink_ok io) path w1 with
        | (Raised, w2) => (Raised, w2)
        | (Returned _, w2) => (Returned dest, w2)
        end
    end.

(** ** Runtime configuration and shared state *)

(** [runtime_config]: the dictionary never gains or loses a key and
    [type(runtime_config[k])(v)] keeps each value's type, so it is a record
    with four [int] fields and three [float] fields. *)
Record RuntimeConfig := mkConfig {
  FILES_MODIFIED_THRESHOLD : Z;
  TIME_WINDOW_SECONDS : Z;
  BYTES_WRITTEN_THRESHOLD : Z;
  RENAMES_THRESHOLD : Z;
  ENTROPY_THRESHOLD : R;
  CONFIDENCE_ACTION_THRESHOLD : R;
  CONFIDENCE_WARN_THRESHOLD : R
}.

Definition default_config : RuntimeConfig :=
  {| FILES_MODIFIED_THRESHOLD := 5;
     TIME_WINDOW_SECONDS := 15;
     BYTES_WRITTEN_THRESHOLD := 10 * 1024;
     RENAMES_THRESHOLD := 2;
     ENTROPY_THRESHOLD := 2;
     CONFIDENCE_ACTION_THRESHOLD := 5 / 100;
     CONFIDENCE_WARN_THRESHOLD := 2 / 100 |}.

(** [WEIGHTS], in the dictionary's insertion order. *)
Definition WEIGHTS : list (string * R) :=
  [ ("file_rate"%string, 25 / 100);
    ("bytes_written"%string, 20 / 100);
    ("rename_spike"%string, 15 / 100);
    ("ransom_note"%string, 20 / 100);
    ("entropy"%string, 2 / 10);
    ("proc_behavior"%string, 25 / 100);
    ("ml_score"%string, 15 / 100) ]%R.

Definition ransom_note_patterns : list string :=
  [ "README"; "HOW_TO_DECRYPT"; "RECOVER"; "README_FOR_DECRYPT" ]%string.

(** The module-level state.  [bytes_written_window] and the deques of
    [proc_writes] hold (timestamp, byte count) pairs, oldest first;
    [recent_modified_files] is the [deque(maxlen=200)], oldest first;
    [ml_model] is the anomaly scorer's [decision_function] on one row. *)
Record State := mkState {
  runtime_config : RuntimeConfig;
  file_mod_counter : SlidingWindowCounter;
  bytes_written_window : list (Z * Z);
  rename_counter : SlidingWindowCounter;
  recent_modified_files : list (list string);
  proc_writes : gmap Z (list (Z * Z));
  ml_model : option (Z -> Z -> Z -> Z -> R)
}.

Definition initial_state : State :=
  {| runtime_config := default_config;
     file_mod_counter := SlidingWindowCounter_init (TIME_WINDOW_SECONDS default_config);
     bytes_written_window := [];
     rename_counter := SlidingWindowCounter_init (TIME_WINDOW_SECONDS default_config);
     recent_modified_files := [];
     proc_writes := ∅;
     ml_model := None |}.

Definition with_runtime_config (c : RuntimeConfig) (st : State) : State :=
  {| runtime_config := c;
     file_mod_counter := file_mod_counter st;
     bytes_written_window := bytes_written_window st;
     rename_counter := rename_counter st;
     recent_modified_files := recent_modified_files st;
     proc_writes := proc_writes st;
     ml_model := ml_model st |}.

Definition with_file_mod_counter (c : SlidingWindowCounter) (st : State) : State :=
  {| runtime_config := runtime_config st;
     file_mod_counter := c;
     bytes_written_window := bytes_written_window st;
     rename_counter := rename_counter st;
     recent_modified_files := recent_modified_files st;
     proc_writes := proc_writes st;
     ml_model := ml_model st |}.

Definition with_rename_counter (c : SlidingWindowCounter) (st : State) : State :=
  {| runtime_config := runtime_config st;
     file_mod_counter := file_mod_counter st;
     bytes_written_window := bytes_written_window st;
     rename_counter := c;
     recent_modified_files := recent_modified_files st;
     proc_writes := proc_writes st;
     ml_model := ml_model st |}.

Definition with_bytes_written_window (b : list (Z * Z)) (st : State) : State :=
  {| runtime_config := runtime_config st;
     file_mod_counter := file_mod_counter st;
     bytes_written_window := b;
     rename_counter := rename_counter st;
     recent_modified_files := recent_modified_files st;
     proc_writes := proc_writes st;
     ml_model := ml_model st |}.

Definition with_recent_modified_files (l : list (list string)) (st : State) : State :=
  {| runtime_config := runtime_config st;
     file_mod_counter := file_mod_counter st;
     bytes_written_window := bytes_written_window st;
     rename_counter := rename_counter st;
     recent_modified_files := l;
     proc_writes := proc_writes st;
     ml_model := ml_model st |}.

(** [deque(maxlen=200).append(p)]: the oldest entry falls off a full deque. *)
Definition deque_append_maxlen (maxlen : nat) (p : list string) (dq : list (list string))
  : list (list string) :=
  let dq' := dq ++ [p] in skipn (length dq' - maxlen) dq'.

(** ** Event ingestion *)

(** [SANDBOX_DIR in path.parents or path == SANDBOX_DIR] *)
Definition inside_sandbox `{Host} (path : Path) : bool :=
  bool_decide (SANDBOX_DIR `prefix_of` path).

(** [path.stat().st_size], 0 when [stat] raises. *)
Definition stat_size (w : World) (p : Path) : Z :=
  match files w !! p with
  | Some data => Z.of_nat (length data)
  | None => 0
  end.

(** [while window and window[0][0] < cutoff: window.popleft()] on a deque of
    (timestamp, value) pairs. *)
Fixpoint popleft_while_ts (cutoff : Z) (dq : list (Z * Z)) : list (Z * Z) :=
  match dq with
  | [] => []
  | (ts, v) :: rest => if ts <? cutoff then popleft_while_ts cutoff rest else (ts, v) :: rest
  end.

(** The clock readings of [on_modified], in program order. *)
Record modified_clock := mkModifiedClock {
  mc_add : Z;
  mc_add_prune : Z;
  mc_sample : Z;
  mc_prune : Z
}.

(** [SandboxHandler.on_modified] for a non-directory event on [path]. *)
Definition on_modified `{Host} (ck : modified_clock) (w : World) (path : Path) (st : State)
  : State :=
  if negb (inside_sandbox path) then st
  else
    let st1 := with_file_mod_counter (add (mc_add ck) (mc_add_prune ck) (file_mod_counter st)) st in
    let st2 := with_recent_modified_files
                 (deque_append_maxlen 200 path (recent_modified_files st1)) st1 in
    let size := stat_size w path in
    let cutoff := mc_prune ck - timedelta_seconds (TIME_WINDOW_SECONDS (runtime_config st2)) in
    with_bytes_written_window
      (popleft_while_ts cutoff (bytes_written_window st2 ++ [(mc_sample ck, size)])) st2.

(** [SandboxHandler.on_created] for a non-directory event on [path]; the
    ransom-note match there is only logged. *)
Definition on_created `{Host} (t_add t_prune : Z) (path : Path) (st : State) : State :=
  if negb (inside_sandbox path) then st
  else
    let st1 := with_file_mod_counter (add t_add t_prune (file_mod_counter st)) st in
    with_recent_modified_files
      (deque_append_maxlen 200 path (recent_modified_files st1)) st1.

(** [SandboxHandler.on_moved] with destination [dst]. *)
Definition on_moved `{Host} (t_add t_prune : Z) (dst : Path) (st : State) : State :=
  if negb (inside_sandbox dst) then st
  else with_rename_counter (add t_add t_prune (rename_counter st)) st.

(** ** Detectors *)

(** [str.upper()] on ASCII letters. *)
Definition upper_ascii (c : ascii) : ascii :=
  let n := nat_of_ascii c in
  if ((97 <=? n) && (n <=? 122))%nat then ascii_of_nat (n - 32) else c.

Fixpoint upper (s : string) : string :=
  match s with
  | EmptyString => EmptyString
  | String c rest => String (upper_ascii c) (upper rest)
  end.

(** [pat in s] on strings. *)
Fixpoint contains (pat s : string) : bool :=
  String.prefix pat s
  || match s with
     | EmptyString => false
     | String _ rest => contains pat rest
     end.

(** [freq[b] = freq.get(b, 0) + 1] on a dictionary kept in insertion order. *)
Fixpoint freq_incr (b : byte) (freq : list (byte * Z)) : list (byte * Z) :=
  match freq with
  | [] => [(b, 1)]
  | (b', n) :: rest =>
      if Byte.eqb b b' then (b', n + 1) :: rest else (b', n) :: freq_incr b rest
  end.

Definition byte_freq (data : Bytes) : list (byte * Z) :=
  fold_left (fun freq b => freq_incr b freq) data [].

(** [math.log2] *)
Definition log2 (x : R) : R := (ln x / ln 2)%R.

(** [entropy(data)] *)
Definition entropy (data : Bytes) : R :=
  match data with
  | [] => 0%R
  | _ =>
      let ln_ := IZR (Z.of_nat (length data)) in
      fold_left (fun ent v => let p := (IZR v / ln_)%R in (ent - p * log2 p)%R)
                (map snd (byte_freq data)) 0%R
  end.

(** [detect_file_rate_score()]; [count()] prunes the counter it reads. *)
Definition detect_file_rate_score (now : Z) (st : State) : R * State :=
  let '(cnt, c') := count now (file_mod_counter st) in
  let thr := FILES_MODIFIED_THRESHOLD (runtime_config st) in
  (Rmin 1 (IZR cnt / Rmax 1 (IZR thr)), with_file_mod_counter c' st).

(** [sum(sz for ts, sz in bytes_written_window)] *)
Definition bytes_total (dq : list (Z * Z)) : Z :=
  fold_left (fun acc s => acc + snd s) dq 0.

(** [detect_bytes_written_score()] *)
Definition detect_bytes_written_score (st : State) : R :=
  let total := bytes_total (bytes_written_window st) in
  let thr := BYTES_WRITTEN_THRESHOLD (runtime_config st) in
  Rmin 1 (IZR total / Rmax 1 (IZR thr)).

(** [detect_rename_score()] *)
Definition detect_rename_score (now : Z) (st : State) : R * State :=
  let '(cnt, c') := count now (rename_counter st) in
  let thr := RENAMES_THRESHOLD (runtime_config st) in
  (Rmin 1 (IZR cnt / Rmax 1 (IZR thr)), with_rename_counter c' st).

(** [any(pat in name for pat in ransom_note_patterns)] *)
Definition matches_ransom_pattern (name : string) : bool :=
  existsb (fun pat => contains pat name) ransom_note_patterns.

(** [detect_ransom_note_score()] *)
Fixpoint ransom_note_loop (w : World) (ps : list (list string)) : R :=
  match ps with
  | [] => 0%R
  | p :: rest =>
      if negb (path_exists w p) then ransom_note_loop w rest
      else if matches_ransom_pattern (upper (path_name p)) then 1%R
      else ransom_note_loop w rest
  end.

Definition detect_ransom_note_score (w : World) (st : State) : R :=
  ransom_note_loop w (recent_modified_files st).

(** [sum(scores)] *)
Definition Rsum (xs : list R) : R := fold_left Rplus xs 0%R.

(** The loop of [detect_entropy_score]: a path that cannot be opened leaves
    [scores] as it is. *)
Fixpoint entropy_loop (w : World) (thr : R) (sampled : list (list string)) (scores : list R)
  : list R :=
  match sampled with
  | [] => scores
  | p :: rest =>
      match open_read w p with
      | Some content =>
          let chunk := firstn 4096 content in
          let e := entropy chunk in
          entropy_loop w thr rest (scores ++ [Rmin 1 (e / Rmax (1 / 1000) thr)])
      | None => entropy_loop w thr rest scores
      end
  end.

(** [detect_entropy_score()] *)
Definition detect_entropy_score (w : World) (st : State) : R :=
  let sampled := firstn 5 (recent_modified_files st) in
  let thr := ENTROPY_THRESHOLD (runtime_config st) in
  let scores := entropy_loop w thr sampled [] in
  match scores with
  | [] => 0%R
  | _ => (Rsum scores / INR (length scores))%R
  end.

(** [dq[-1][1] - dq[0][1]] for a deque with a first element [hd]. *)
Definition write_delta (hd : Z * Z) (dq : list (Z * Z)) : Z :=
  snd (List.last dq hd) - snd hd.

(** The loop of [detect_proc_behavior_score] over [proc_writes.items()]. *)
Fixpoint proc_behavior_loop (thr : R) (items : list (Z * list (Z * Z))) (scores : list R)
  : list R :=
  match items with
  | [] => scores
  | (pid, dq) :: rest =>
      match dq with
      | [] => proc_behavior_loop thr rest scores
      | hd :: _ =>
          if (2 <=? length dq)%nat then
            let bytes_written := write_delta hd dq in
            let s := Rmin 1 (IZR bytes_written / Rmax 1 thr) in
            if Rlt_dec (1 / 10) s
            then proc_behavior_loop thr rest (scores ++ [s])
            else proc_behavior_loop thr rest scores
          else proc_behavior_loop thr rest scores
      end
  end.

(** [max(scores) if scores else 0.0] *)
Definition Rmax_list_or_zero (scores : list R) : R :=
  match scores with
  | [] => 0%R
  | s :: rest => fold_left Rmax rest s
  end.

(** [detect_proc_behavior_score()] *)
Definition detect_proc_behavior_score (st : State) : R :=
  let thr := (IZR (BYTES_WRITTEN_THRESHOLD (runtime_config st)) / 10)%R in
  Rmax_list_or_zero (proc_behavior_loop thr (map_to_list (proc_writes st)) []).

(** The [proc_max] loop of [detect_ml_score] over [proc_writes.values()]. *)
Definition proc_max_delta (dqs : list (list (Z * Z))) : Z :=
  fold_left (fun proc_max dq =>
               match dq with
               | hd :: _ :: _ => Z.max proc_max (write_delta hd dq)
               | _ => proc_max
               end) dqs 0.

(** [detect_ml_score()]; the two [count()] calls read the clock at [now_fc]
    and [now_rc]. *)
Definition detect_ml_score `{Host} (now_fc now_rc : Z) (st : State) : R * State :=
  match ml_model st with
  | None => (0%R, st)
  | Some decision_function =>
      if negb ML_AVAILABLE then (0%R, st)
      else
        let '(fc, c1) := count now_fc (file_mod_counter st) in
        let st1 := with_file_mod_counter c1 st in
        let bt := bytes_total (bytes_written_window st1) in
        let '(rc, c2) := count now_rc (rename_counter st1) in
        let st2 := with_rename_counter c2 st1 in
        let proc_max := proc_max_delta (map snd (map_to_list (proc_writes st2))) in
        let score_raw := decision_function fc bt rc proc_max in
        let sc := if Rlt_dec score_raw 0 then Rmin 1 (- score_raw / 10) else 0%R in
        (sc, st2)
  end.

(** ** Confidence fusion *)

(** [WEIGHTS.get(k, 0)] *)
Definition weights_get (k : string) : R :=
  match List.find (fun kv => String.eqb (fst kv) k) WEIGHTS with
  | Some kv => snd kv
  | None => 0%R
  end.

(** [sum(WEIGHTS.get(k,0)*v for k,v in detectors.items())] *)
Definition weighted_sum (detectors : list (string * R)) : R :=
  Rsum (map (fun kv => (weights_get (fst kv) * snd kv)%R) detectors).

(** [sum(WEIGHTS.values()) or 1.0] *)
Definition weight_sum : R :=
  let s := Rsum (map snd WEIGHTS) in
  if Req_dec_T s 0 then 1%R else s.

(** [confidence = weighted / weight_sum] for a detector breakdown. *)
Definition fuse (detectors : list (string * R)) : R :=
  (weighted_sum detectors / weight_sum)%R.

(** The clock readings of one [compute_confidence()] call, in program order. *)
Record eval_clock := mkEvalClock {
  ck_file_rate : Z;
  ck_rename : Z;
  ck_ml_file_rate : Z;
  ck_ml_rename : Z
}.

(** [compute_confidence()]: the confidence, the detector breakdown and the
    state left by the [count()] calls. *)
Definition compute_confidence `{Host} (ck : eval_clock) (w : World) (st : State)
  : (R * list (string * R)) * State :=
  let '(s_file, st1) := detect_file_rate_score (ck_file_rate ck) st in
  let s_bytes := detect_bytes_written_score st1 in
  let '(s_rename, st2) := detect_rename_score (ck_rename ck) st1 in
  let s_note := detect_ransom_note_score w st2 in
  let s_entropy := detect_entropy_score w st2 in
  let s_proc := detect_proc_behavior_score st2 in
  let '(s_ml, st3) := detect_ml_score (ck_ml_file_rate ck) (ck_ml_rename ck) st2 in
  let detectors :=
    [ ("file_rate"%string, s_file);
      ("bytes_written"%string, s_bytes);
      ("rename_spike"%string, s_rename);
      ("ransom_note"%string, s_note);
      ("entropy"%string, s_entropy);
      ("proc_behavior"%string, s_proc);
      ("ml_score"%string, s_ml) ] in
  ((fuse detectors, detectors), st3).

(** ** Action pipeline *)

(** The alert dictionary built by [snapshot_and_alert]. *)
Record Alert := mkAlert {
  alert_timestamp : string;
  alert_confidence : R;
  alert_detectors : list (string * R);
  alert_snapshots : list string
}.

(** [str(dest)] where [dest] is the value of an [encrypt_and_store] call that
    returned: that value is [None]. *)
Definition str_of_None (dest : unit) : string := "None".

(** The environment of one [snapshot_and_alert] call: one [snapshot_io] per
    loop iteration, the clock reading of [now_ts()] and the environment of the
    quarantine step. *)
Record action_io := mkActionIO {
  act_snapshot : nat -> snapshot_io;
  act_now : Z;
  act_quarantine : quarantine_io
}.

(** The [for p in list(recent_modified_files)[:20]] loop, at iteration [i]. *)
Fixpoint snapshot_loop `{Host} (ios : nat -> snapshot_io) (i : nat)
    (ps : list (list string)) (snap_list : list string) (w : World)
  : list string * World :=
  match ps with
  | [] => (snap_list, w)
  | p :: rest =>
      match encrypt_and_store (ios i) p BACKUP_DIR w with
      | (Returned dest, w') =>
          snapshot_loop ios (S i) rest (snap_list ++ [str_of_None dest]) w'
      | (Raised, w') => snapshot_loop ios (S i) rest snap_list w'
      end
  end.

(** [list(recent_modified_files)[:20]] *)
Definition snapshot_targets (st : State) : list (list string) :=
  firstn 20 (recent_modified_files st).

(** [recent_modified_files[-1]] when the deque is not empty. *)
Definition quarantine_target (st : State) : option (list string) :=
  match recent_modified_files st with
  | [] => None
  | p :: rest => Some (List.last rest p)
  end.

(** [snapshot_and_alert(confidence, detectors)].  The desktop notification
    that ends it catches its own exceptions and touches none of the state
    modelled here. *)
Definition snapshot_and_alert `{Host} (io : action_io) (confidence : R)
    (detectors : list (string * R)) (st : State) (w : World) : Alert * World :=
  let '(snap_list, w1) := snapshot_loop (act_snapshot io) 0 (snapshot_targets st) [] w in
  let alert :=
    {| alert_timestamp := now_ts (act_now io);
       alert_confidence := confidence;
       alert_detectors := detectors;
       alert_snapshots := snap_list |} in
  let w2 :=
    match quarantine_target st with
    | None => w1
    | Some target => snd (move_to_quarantine (act_quarantine io) target w1)
    end in
  (alert, w2).

(** ** The [/set_rates] endpoint *)

(** A JSON value of the request body. *)
Inductive json :=
| JNull
| JBool (b : bool)
| JInt (z : Z)
| JFloat (r : R)
| JStr (s : string)
| JArray
| JObject.

(** Python's [int(v)] and [float(v)] on a decoded JSON value; [None] when the
    call raises. *)
Class Builtins := {
  py_int : json -> option Z;
  py_float : json -> option R
}.

Inductive cfg_key :=
| K_FILES_MODIFIED_THRESHOLD
| K_TIME_WINDOW_SECONDS
| K_BYTES_WRITTEN_THRESHOLD
| K_RENAMES_THRESHOLD
| K_ENTROPY_THRESHOLD
| K_CONFIDENCE_ACTION_THRESHOLD
| K_CONFIDENCE_WARN_THRESHOLD.

Definition all_keys : list cfg_key :=
  [ K_FILES_MODIFIED_THRESHOLD; K_TIME_WINDOW_SECONDS; K_BYTES_WRITTEN_THRESHOLD;
    K_RENAMES_THRESHOLD; K_ENTROPY_THRESHOLD; K_CONFIDENCE_ACTION_THRESHOLD;
    K_CONFIDENCE_WARN_THRESHOLD ].

Definition key_name (k : cfg_key) : string :=
  match k with
  | K_FILES_MODIFIED_THRESHOLD => "FILES_MODIFIED_THRESHOLD"
  | K_TIME_WINDOW_SECONDS => "TIME_WINDOW_SECONDS"
  | K_BYTES_WRITTEN_THRESHOLD => "BYTES_WRITTEN_THRESHOLD"
  | K_RENAMES_THRESHOLD => "RENAMES_THRESHOLD"
  | K_ENTROPY_THRESHOLD => "ENTROPY_THRESHOLD"
  | K_CONFIDENCE_ACTION_THRESHOLD => "CONFIDENCE_ACTION_THRESHOLD"
  | K_CONFIDENCE_WARN_THRESHOLD => "CONFIDENCE_WARN_THRESHOLD"
  end.

(** [k in runtime_config], with the key found. *)
Definition lookup_key (k : string) : option cfg_key :=
  List.find (fun key => String.eqb (key_name key) k) all_keys.

(** A value of [runtime_config]. *)
Inductive cfg_val :=
| VInt (z : Z)
| VFloat (r : R).

(** [runtime_config[k]] *)
Definition cfg_get (c : RuntimeConfig) (k : cfg_key) : cfg_val :=
  match k with
  | K_FILES_MODIFIED_THRESHOLD => VInt (FILES_MODIFIED_THRESHOLD c)
  | K_TIME_WINDOW_SECONDS => VInt (TIME_WINDOW_SECONDS c)
  | K_BYTES_WRITTEN_THRESHOLD => VInt (BYTES_WRITTEN_THRESHOLD c)
  | K_RENAMES_THRESHOLD => VInt (RENAMES_THRESHOLD c)
  | K_ENTROPY_THRESHOLD => VFloat (ENTROPY_THRESHOLD c)
  | K_CONFIDENCE_ACTION_THRESHOLD => VFloat (CONFIDENCE_ACTION_THRESHOLD c)
  | K_CONFIDENCE_WARN_THRESHOLD => VFloat (CONFIDENCE_WARN_THRESHOLD c)
  end.

(** [type(runtime_config[k])(v)]; [None] when the conversion raises. *)
Definition coerce `{Builtins} (c : RuntimeConfig) (k : cfg_key) (v : json) : option cfg_val :=
  match cfg_get c k with
  | VInt _ => VInt <$> py_int v
  | VFloat _ => VFloat <$> py_float v
  end.

(** [runtime_config[k] = x]; a value of the other type cannot reach a key,
    since [coerce] keeps the type. *)
Definition cfg_set (c : RuntimeConfig) (k : cfg_key) (x : cfg_val) : RuntimeConfig :=
  match k, x with
  | K_FILES_MODIFIED_THRESHOLD, VInt z =>
      mkConfig z (TIME_WINDOW_SECONDS c) (BYTES_WRITTEN_THRESHOLD c) (RENAMES_THRESHOLD c)
               (ENTROPY_THRESHOLD c) (CONFIDENCE_ACTION_THRESHOLD c) (CONFIDENCE_WARN_THRESHOLD c)
  | K_TIME_WINDOW_SECONDS, VInt z =>
      mkConfig (FILES_MODIFIED_THRESHOLD c) z (BYTES_WRITTEN_THRESHOLD c) (RENAMES_THRESHOLD c)
               (ENTROPY_THRESHOLD c) (CONFIDENCE_ACTION_THRESHOLD c) (CONFIDENCE_WARN_THRESHOLD c)
  | K_BYTES_WRITTEN_THRESHOLD, VInt z =>
      mkConfig (FILES_MODIFIED_THRESHOLD c) (TIME_WINDOW_SECONDS c) z (RENAMES_THRESHOLD c)
               (ENTROPY_THRESHOLD c) (CONFIDENCE_ACTION_THRESHOLD c) (CONFIDENCE_WARN_THRESHOLD c)
  | K_RENAMES_THRESHOLD, VInt z =>
      mkConfig (FILES_MODIFIED_THRESHOLD c) (TIME_WINDOW_SECONDS c) (BYTES_WRITTEN_THRESHOLD c) z
               (ENTROPY_THRESHOLD c) (CONFIDENCE_ACTION_THRESHOLD c) (CONFIDENCE_WARN_THRESHOLD c)
  | K_ENTROPY_THRESHOLD, VFloat r =>
      mkConfig (FILES_MODIFIED_THRESHOLD c) (TIME_WINDOW_SECONDS c) (BYTES_WRITTEN_THRESHOLD c)
               (RENAMES_THRESHOLD c) r (CONFIDENCE_ACTION_THRESHOLD c) (CONFIDENCE_WARN_THRESHOLD c)
  | K_CONFIDENCE_ACTION_THRESHOLD, VFloat r =>
      mkConfig (FILES_MODIFIED_THRESHOLD c) (TIME_WINDOW_SECONDS c) (BYTES_WRITTEN_THRESHOLD c)
               (RENAMES_THRESHOLD c) (ENTROPY_THRESHOLD c) r (CONFIDENCE_WARN_THRESHOLD c)
  | K_CONFIDENCE_WARN_THRESHOLD, VFloat r =>
      mkConfig (FILES_MODIFIED_THRESHOLD c) (TIME_WINDOW_SECONDS c) (BYTES_WRITTEN_THRESHOLD c)
               (RENAMES_THRESHOLD c) (ENTROPY_THRESHOLD c) (CONFIDENCE_ACTION_THRESHOLD c) r
  | _, _ => c
  end.

(** The [for k, v in payload.items()] loop: the error message of the early
    return if there is one, the configuration and the [updated] dictionary. *)
Fixpoint set_rates_loop `{Builtins} (items : list (string * json)) (c : RuntimeConfig)
    (updated : gmap string cfg_val) : option string * RuntimeConfig * gmap string cfg_val :=
  match items with
  | [] => (None, c, updated)
  | (k, v) :: rest =>
      match lookup_key k with
      | Some key =>
          match coerce c key v with
          | Some x =>
              let c' := cfg_set c key x in
              set_rates_loop rest c' (<[k := cfg_get c' key]> updated)
          | None => (Some ("invalid value for " ++ k)%string, c, updated)
          end
      | None => (Some ("unknown key " ++ k)%string, c, updated)
      end
  end.

(** The two JSON responses of [set_rates]. *)
Inductive response :=
| Ok200 (updated : gmap string cfg_val)
| Error400 (error : string).

(** [set_rates(request)] on the decoded JSON object [payload], whose items are
    listed in the dictionary's order. *)
Definition set_rates `{Builtins} (payload : list (string * json)) (st : State)
  : response * State :=
  match set_rates_loop payload (runtime_config st) ∅ with
  | (Some error, c, _) => (Error400 error, with_runtime_config c st)
  | (None, c, updated) =>
      let st1 := with_runtime_config c st in
      if bool_decide ("TIME_WINDOW_SECONDS"%string ∈ dom updated) then
        let st2 := with_file_mod_counter
                     (SlidingWindowCounter_init (TIME_WINDOW_SECONDS (runtime_config st1))) st1 in
        let st3 := with_rename_counter
                     (SlidingWindowCounter_init (TIME_WINDOW_SECONDS (runtime_config st2))) st2 in
        (Ok200 updated, st3)
      else (Ok200 updated, st1)
  end.

(** ** One iteration of [agent_loop] *)

(** The body of the [while not stop_event.is_set()] loop up to [time.sleep]:
    the alerts handed to [manager.broadcast], the state and the file system. *)
Definition agent_cycle `{Host} (ck : eval_clock) (io : action_io) (st : State) (w : World)
  : list Alert * State * World :=
  let '((confidence, detectors), st1) := compute_confidence ck w st in
  if Rle_dec (CONFIDENCE_ACTION_THRESHOLD (runtime_config st1)) confidence then
    let '(alert, w') := snapshot_and_alert io confidence detectors st1 w in
    ([alert], with_recent_modified_files [] st1, w')
  else ([], st1, w).

(** ** URL scanner ([detection3.py], [main.py]) *)













(** ** Definitions used in the statements *)

(** A score in [[0, 1]]. *)
Definition in_unit_interval (x : R) : Prop := (0 <= x <= 1)%R.

(** Every byte sample of the window is a file size, hence not negative:
    [on_modified] appends [st_size] or 0 and nothing else writes the window. *)
Definition sizes_nonneg (st : State) : Prop :=
  Forall (fun sample => 0 <= snd sample) (bytes_written_window st).

(** The number of bytes counted by a frequency table. *)
Definition freq_total (freq : list (byte * Z)) : Z :=
  fold_right (fun kv acc => snd kv + acc) 0 freq.

(** The last [n] entries of a deque, that is its [n] most recent ones. *)
Definition most_recent (n : nat) (dq : list (list string)) : list (list string) :=
  skipn (length dq - n) dq.

(** The entropy detector of the specification: it samples the 5 most recent
    files of the log; everything else is as in [detect_entropy_score]. *)
Definition detect_entropy_score_most_recent (w : World) (st : State) : R :=
  let sampled := most_recent 5 (recent_modified_files st) in
  let thr := ENTROPY_THRESHOLD (runtime_config st) in
  let scores := entropy_loop w thr sampled [] in
  match scores with
  | [] => 0%R
  | _ => (Rsum scores / INR (length scores))%R
  end.

(** The normalised score of one sampled file's contents. *)
Definition entropy_sample_score (thr : R) (content : list byte) : R :=
  Rmin 1 (entropy (firstn 4096 content) / Rmax (1 / 1000) thr).

(** [snapshot_step_spec ios i ps w dests w']: starting in world [w] at loop
    iteration [i], the snapshot step over the paths [ps] persists the
    artifacts [dests], in this order, and ends in world [w'].  A path is
    persisted when its contents [data] can be read and encrypted to [ct] and
    the write succeeds: the artifact then holds [nonce ++ ct] and is named
    after the file and the time stamp.  A path whose call raises persists
    nothing, although a failed write may leave a partial file. *)
Inductive snapshot_step_spec `{Host} (ios : nat -> snapshot_io)
  : nat -> list (list string) -> World -> list (list string) -> World -> Prop :=
| snapshot_step_done i w :
    snapshot_step_spec ios i [] w [] w
| snapshot_step_stored i p rest w dests w' data ct :
    open_read w p = Some data ->
    aes_encrypt AESGCM_KEY (snap_nonce (ios i)) data = Some ct ->
    let dest := path_join BACKUP_DIR
                  (path_name p ++ "." ++ strftime_stamp (snap_stamp (ios i)) ++ ".enc")%string in
    snapshot_step_spec ios (S i) rest
      (with_files (<[dest := snap_nonce (ios i) ++ ct]> (files w)) w) dests w' ->
    snapshot_step_spec ios i (p :: rest) w (dest :: dests) w'
| snapshot_step_skipped i p rest w w1 dests w' :
    encrypt_and_store (ios i) p BACKUP_DIR w = (Raised, w1) ->
    snapshot_step_spec ios (S i) rest w1 dests w' ->
    snapshot_step_spec ios i (p :: rest) w dests w'.

(** An item the loop of [set_rates] accepts: its key is a configuration key
    and its value converts to that key's type. *)
Definition item_accepted `{Builtins} (c : RuntimeConfig) (item : string * json) : Prop :=
  exists key x, lookup_key (fst item) = Some key /\ coerce c key (snd item) = Some x.

(** An item the loop rejects with the message [error]. *)
Definition item_rejected `{Builtins} (c : RuntimeConfig) (item : string * json)
    (error : string) : Prop :=
  (lookup_key (fst item) = None /\ error = ("unknown key " ++ fst item)%string)
  \/ (exists key, lookup_key (fst item) = Some key
                  /\ coerce c key (snd item) = None
                  /\ error = ("invalid value for " ++ fst item)%string).

(** [freq.get(b, 0)] *)
Definition freq_get (b : byte) (freq : list (byte * Z)) : Z :=
  match List.find (fun kv => Byte.eqb b (fst kv)) freq with
  | Some kv => snd kv
  | None => 0
  end.

(** The number of occurrences of [b] in [data]. *)
Definition occurrences (b : byte) (data : list byte) : Z :=
  Z.of_nat (length (List.filter (Byte.eqb b) data)).

(** ** Concrete instances for the examples *)

(** A host on which the model is evaluated in the examples below.  Its cipher
    is a stand-in that appends a sixteen-byte tag to the plaintext; the
    examples do not depend on what the cipher computes. *)
Definition example_host : Host :=
  {| BASE_DIR := ["srv"; "agent"]%string;
     AESGCM_KEY := repeat x00 32;
     aes_encrypt := fun _ _ data => Some (data ++ repeat xff 16);
     strftime_stamp := fun t => pretty (t / 1000000);
     isoformat_Z := fun t => pretty t;
     ML_AVAILABLE := false |}.

(** Conversions that accept JSON numbers of the right kind only. *)
Definition example_builtins : Builtins :=
  {| py_int := fun v => match v with
                        | JInt z => Some z
                        | JBool b => Some (if b then 1 else 0)
                        | _ => None
                        end;
     py_float := fun v => match v with
                          | JInt z => Some (IZR z)
                          | JFloat r => Some r
                          | _ => None
                          end |}.



(** A world with one sandbox file, used by the examples on single files. *)
Definition example_file : Path := ["srv"; "agent"; "demo_sandbox"; "a.txt"]%string.

Definition example_world : World :=
  {| files := {[ example_file := [x41; x42] ]}; unreadable := ∅ |}.

(** The initial state with [FILES_MODIFIED_THRESHOLD] set to [thr] and the
    file-rate counter holding [evs]. *)
Definition example_rate_state (thr : Z) (evs : list Z) : State :=
  with_file_mod_counter (mkSWC (timedelta_seconds 15) evs)
    (with_runtime_config (cfg_set default_config K_FILES_MODIFIED_THRESHOLD (VInt thr))
       initial_state).

(** The clock readings and the state of the examples on the detectors: the
    initial state after one [on_modified] event on [example_file]. *)
Definition example_eval_clock : eval_clock := mkEvalClock 3000000 3000001 3000002 3000003.

Definition example_modified_state : State :=
  @on_modified example_host (mkModifiedClock 1000000 1000001 1000002 1000003)
               example_world example_file initial_state.

(** Six logged paths of which only the newest, [example_file], exists. *)
Definition example_six_files_state : State :=
  with_recent_modified_files
    [ ["srv"; "agent"; "demo_sandbox"; "old1"]%string;
      ["srv"; "agent"; "demo_sandbox"; "old2"]%string;
      ["srv"; "agent"; "demo_sandbox"; "old3"]%string;
      ["srv"; "agent"; "demo_sandbox"; "old4"]%string;
      ["srv"; "agent"; "demo_sandbox"; "old5"]%string;
      example_file ]
    initial_state.

(** An environment in which every step of the action pipeline succeeds. *)
Definition example_action_io : action_io :=
  {| act_snapshot := fun i => mkSnapshotIO true (repeat x07 12) 1700000000000000 WriteOk;
     act_now := 1700000000000000;
     act_quarantine := mkQuarantineIO true 1700000000 WriteOk true |}.




(** [example_modified_state] with the action threshold set to [thr]. *)
Definition example_threshold_state (thr : R) : State :=
  with_runtime_config
    (cfg_set (runtime_config example_modified_state) K_CONFIDENCE_ACTION_THRESHOLD (VFloat thr))
    example_modified_state.

(** A log holding [example_file] only. *)
Definition example_one_file_state : State :=
  with_recent_modified_files [example_file] initial_state.

(** ** Further functions of [crisisguard_agent_api.py] *)

Definition with_proc_writes (pw : gmap Z (list (Z * Z))) (st : State) : State :=
  {| runtime_config := runtime_config st;
     file_mod_counter := file_mod_counter st;
     bytes_written_window := bytes_written_window st;
     rename_counter := rename_counter st;
     recent_modified_files := recent_modified_files st;
     proc_writes := pw;
     ml_model := ml_model st |}.

Definition PROCESS_WHITELIST : list string :=
  [ "explorer.exe"; "System"; "code"; "python"; "bash"; "powershell";
    "GoogleDriveSync"; "DropBox" ]%string.

(** What one iteration of the [for proc in psutil.process_iter(...)] loop
    observes: [proc.info]'s name and pid, whether [proc.cpu_percent] returns
    (it raises [NoSuchProcess] or [AccessDenied] otherwise), the [write_bytes]
    of [io_counters] when there is one, and the two clock readings. *)
Record proc_sample := mkProcSample {
  ps_name : option string;
  ps_pid : Z;
  ps_cpu_ok : bool;
  ps_write_bytes : option Z;
  ps_append_time : Z;
  ps_prune_time : Z
}.

(** [name in PROCESS_WHITELIST] with [name = proc.info.get('name') or ""] *)
Definition whitelisted (p : proc_sample) : bool :=
  existsb (String.eqb (default ""%string (ps_name p))) PROCESS_WHITELIST.

(** The body of the loop over processes in [process_monitor_loop].
    [proc_writes] is a [defaultdict]: reading a missing pid creates an empty
    deque for it. *)
Definition monitor_process (p : proc_sample) (st : State) : State :=
  if whitelisted p then st
  else if negb (ps_cpu_ok p) then st
  else
    let writes := default 0 (ps_write_bytes p) in
    let dq := default [] (proc_writes st !! ps_pid p) ++ [(ps_append_time p, writes)] in
    let cutoff := ps_prune_time p
                  - timedelta_seconds (TIME_WINDOW_SECONDS (runtime_config st)) in
    with_proc_writes (<[ps_pid p := popleft_while_ts cutoff dq]> (proc_writes st)) st.

(** One pass of the [while not stop_event.is_set()] loop of
    [process_monitor_loop] over the processes enumerated. *)
Definition process_monitor_sweep (procs : list proc_sample) (st : State) : State :=
  fold_left (fun s p => monitor_process p s) procs st.

(** [GET /status]: the JSON answer and the state left by the [count()] calls
    of [compute_confidence]. *)
Definition status `{Host} (ck : eval_clock) (w : World) (st : State)
  : (R * list (string * R) * RuntimeConfig) * State :=
  let '((confidence, detectors), st') := compute_confidence ck w st in
  ((confidence, detectors, runtime_config st'), st').

(** [class ConnectionManager]: a websocket is identified by a number and
    [active_connections] is the list of the class. *)

(** [connect(websocket)]: [accept] may raise, and then nothing is appended. *)
Definition connect (accept_ok : bool) (websocket : nat) (active_connections : list nat)
  : outcome unit * list nat :=
  if accept_ok then (Returned tt, active_connections ++ [websocket])
  else (Raised, active_connections).

(** [list.remove(x)]: removes the first occurrence, [None] for [ValueError]. *)
Fixpoint list_remove (x : nat) (l : list nat) : option (list nat) :=
  match l with
  | [] => None
  | y :: rest =>
      if Nat.eqb y x then Some rest
      else match list_remove x rest with
           | Some rest' => Some (y :: rest')
           | None => None
           end
  end.

(** [disconnect(websocket)] *)
Definition disconnect (websocket : nat) (active_connections : list nat) : list nat :=
  match list_remove websocket active_connections with
  | Some l => l
  | None => active_connections
  end.

(** The loop of [broadcast(msg)] at iteration [i]: [send_ok i] tells whether
    [send_json] returns there.  The result is [living], the messages delivered
    and the connections on which [close] was called. *)
Fixpoint broadcast_loop {M : Type} (send_ok : nat -> bool) (i : nat) (msg : M)
    (conns living : list nat) (delivered : list (nat * M)) (closed : list nat)
  : list nat * list (nat * M) * list nat :=
  match conns with
  | [] => (living, delivered, closed)
  | conn :: rest =>
      if send_ok i
      then broadcast_loop send_ok (S i) msg rest (living ++ [conn])
                          (delivered ++ [(conn, msg)]) closed
      else broadcast_loop send_ok (S i) msg rest living delivered (closed ++ [conn])
  end.

(** [broadcast(msg)]: the new [active_connections], the deliveries and the
    closed connections. *)
Definition broadcast {M : Type} (send_ok : nat -> bool) (msg : M)
    (active_connections : list nat) : list nat * list (nat * M) * list nat :=
  broadcast_loop send_ok 0 msg active_connections [] [] [].

(** ** Further functions of [detection3.py] *)

(** [expected_features], the manual feature list. *)
Definition expected_features : list string :=
  [ "registry_read"; "registry_write"; "registry_delete"; "registry_total";
    "network_dns"; "network_http"; "network_connections";
    "processes_malicious"; "processes_suspicious"; "processes_monitored";
    "total_procsses"; "files_malicious"; "files_suspicious"; "files_text";
    "files_unknown"; "dlls_calls"; "apis" ]%string
  ++ map (fun i : nat => ("t_" ++ pretty i)%string) (seq 0 100)
  ++ [ "malware"; "Machine"; "DebugSize"; "DebugRVA"; "MajorImageVersion";
       "MajorOSVersion"; "ExportRVA"; "ExportSize"; "IatVRA"; "MajorLinkerVersion";
       "MinorLinkerVersion"; "NumberOfSections"; "SizeOfStackReserve";
       "ResourceSize"; "BitcoinAddresses"; "cluster" ]%string.

(** The values of the [feat] dictionary of [url_to_features_deterministic],
    as computed from the parsed URL. *)
Record url_feat_values := mkUrlFeatValues {
  fv_url_length : R;
  fv_host_length : R;
  fv_path_length : R;
  fv_query_length : R;
  fv_num_dots : R;
  fv_num_digits_host : R;
  fv_hostname_entropy : R;
  fv_has_ip : R;
  fv_tld_suspicious : R;
  fv_uses_https : R;
  fv_num_path_segments : R;
  fv_num_query_params : R;
  fv_vowel_ratio_host : R
}.

(** [feat.items()] *)
Definition feat_items (f : url_feat_values) : list (string * R) :=
  [ ("url_length", fv_url_length f);
    ("host_length", fv_host_length f);
    ("path_length", fv_path_length f);
    ("query_length", fv_query_length f);
    ("num_dots", fv_num_dots f);
    ("num_digits_host", fv_num_digits_host f);
    ("hostname_entropy", fv_hostname_entropy f);
    ("has_ip", fv_has_ip f);
    ("tld_suspicious", fv_tld_suspicious f);
    ("uses_https", fv_uses_https f);
    ("num_path_segments", fv_num_path_segments f);
    ("num_query_params", fv_num_query_params f);
    ("vowel_ratio_host", fv_vowel_ratio_host f) ]%string.

(** The row-building part of [url_to_features_deterministic]: a one-row
    frame is the list of its (column, value) pairs in column order. *)
Definition url_to_features_deterministic (f : url_feat_values) (expected : list string)
  : list (string * R) :=
  let feature_dict0 : gmap string R := list_to_map (map (fun name => (name, 0%R)) expected) in
  let feature_dict :=
    fold_left (fun d kv => if bool_decide (is_Some (d !! fst kv))
                           then <[fst kv := snd kv]> d else d)
              (feat_items f) feature_dict0 in
  map (fun c => (c, default 0%R (feature_dict !! c))) expected.

(** ['c' in row.columns] *)
Definition has_column (c : string) (row : list (string * R)) : bool :=
  existsb (fun kv => String.eqb (fst kv) c) row.

(** [row.at[0, c]] for a column that exists. *)
Definition row_at (c : string) (row : list (string * R)) : R :=
  match List.find (fun kv => String.eqb (fst kv) c) row with
  | Some kv => snd kv
  | None => 0%R
  end.

(** [row.at[0, c] = v] for a column that exists. *)
Definition row_set (c : string) (v : R) (row : list (string * R)) : list (string * R) :=
  map (fun kv => if String.eqb (fst kv) c then (fst kv, v) else kv) row.

(** [int(x)]: truncation towards zero. *)
Definition py_trunc (x : R) : Z :=
  if Rle_dec 0 x then Int_part x else - Int_part (- x).

(** The body of the loop of [synthesize_variants_from_base] for index [i]. *)
Definition synthesize_row (base : list (string * R)) (i : nat) : list (string * R) :=
  let phase := (i mod 6)%nat in
  let in_ (l : list nat) := existsb (Nat.eqb phase) l in
  let row0 := base in
  let row1 :=
    if has_column "hostname_entropy" row0 then
      let r1 := if in_ [0; 1]%nat
                then row_set "hostname_entropy" (Rmax (row_at "hostname_entropy" row0) (5 / 10)) row0
                else row0 in
      let r2 := if in_ [2; 3]%nat
                then row_set "hostname_entropy" (Rmax (row_at "hostname_entropy" r1) (25 / 10)) r1
                else r1 in
      if in_ [4; 5]%nat
      then row_set "hostname_entropy" (Rmax (row_at "hostname_entropy" r2) 4) r2
      else r2
    else row0 in
  let row2 :=
    if has_column "num_digits_host" row1 then
      if in_ [0; 2; 4]%nat
      then row_set "num_digits_host"
             (IZR (Z.min 10 (py_trunc (row_at "num_digits_host" row1) + (Z.of_nat phase + 1))))
             row1
      else row_set "num_digits_host"
             (IZR (Z.max 0 (py_trunc (row_at "num_digits_host" row1) - Z.of_nat (phase mod 3))))
             row1
    else row1 in
  let row3 :=
    if has_column "tld_suspicious" row2
    then row_set "tld_suspicious" (if in_ [2; 4; 5]%nat then 1 else 0)%R row2
    else row2 in
  let row4 :=
    if has_column "uses_https" row3
    then row_set "uses_https" (if in_ [2; 3]%nat then 0 else 1)%R row3
    else row3 in
  if has_column "num_path_segments" row4
  then row_set "num_path_segments"
         (IZR (py_trunc (row_at "num_path_segments" row4) + Z.of_nat (phase mod 4))) row4
  else row4.

(** [synthesize_variants_from_base(base_url, expected_features, n)] on the
    feature values of [base_url]: the rows of the frame. *)
Definition synthesize_variants_from_base (f : url_feat_values) (expected : list string)
    (n : nat) : list (list (string * R)) :=
  let base_df := url_to_features_deterministic f expected in
  map (synthesize_row base_df) (seq 0 n).

Definition PER_CLASS_REQ : nat := 300.

(** [pad_to_k(df, k)] inside [collect_balanced_samples], on the list of rows
    of [df]; [dummy] is the all-zero row.  [None] stands for the [ValueError]
    of [pd.concat] on an empty list, raised when both [df] and [k] are
    empty. *)
Definition pad_to_k {A : Type} (dummy : A) (df : list A) (k : nat) : option (list A) :=
  match length df with
  | O => match k with
         | O => None
         | _ => Some (repeat dummy k)
         end
  | n =>
      if (k <=? n)%nat then Some (firstn k df)
      else
        let repeats := ((k + n - 1) / n)%nat in
        Some (firstn k (concat (repeat df repeats)))
  end.

(** The end of [collect_balanced_samples] before the shuffle: both samples
    are padded to [PER_CLASS_REQ] rows, labelled in [orig_class] and
    concatenated. *)
Definition label_and_concat {A : Type} (dummy : A) (sampled_benign sampled_mal : list A)
  : option (list (A * string)) :=
  match pad_to_k dummy sampled_benign PER_CLASS_REQ,
        pad_to_k dummy sampled_mal PER_CLASS_REQ with
  | Some b, Some m =>
      Some (map (fun row => (row, "BENIGN"%string)) b
            ++ map (fun row => (row, "MALICIOUS"%string)) m)
  | _, _ => None
  end.

(** ** Further definitions used in the statements *)

(** The candidate score of one process's deque in
    [detect_proc_behavior_score]. *)
Definition proc_candidate (thr : R) (dq : list (Z * Z)) : R :=
  match dq with
  | [] => 0%R
  | hd :: _ => Rmin 1 (IZR (write_delta hd dq) / Rmax 1 thr)
  end.

(** A deque that contributes a candidate: at least two samples and a
    candidate above 0.1. *)
Definition proc_scored (thr : R) (dq : list (Z * Z)) : Prop :=
  (2 <= length dq)%nat /\ (1 / 10 < proc_candidate thr dq)%R.

(** The threshold [BYTES_WRITTEN_THRESHOLD / 10.0] of the process detector. *)
Definition proc_threshold (st : State) : R :=
  (IZR (BYTES_WRITTEN_THRESHOLD (runtime_config st)) / 10)%R.

(** A process the monitor samples: not on the white list and accessible. *)
Definition sampled (p : proc_sample) : bool := negb (whitelisted p) && ps_cpu_ok p.

(** The initial state tracking one process, pid 42, whose write counter went
    from 0 to 5000 bytes. *)
Definition example_proc_state : State :=
  with_proc_writes {[ 42 := [(1000000, 0); (1500000, 5000)] ]} initial_state.





(** [generate_url_variants(url, n)] on [base], the value of
    [parsed.geturl().rstrip('/')]. *)
Definition generate_url_variants (base : string) (n : nat) : list string :=
  map (fun i : nat => (base ++ "/v" ++ pretty i)%string) (seq 0 n).

(** ** The same functions with Python's range errors *)

(** The definitions above compute with unbounded integers and exact reals.
    Python raises [OverflowError] when a date leaves the years 1..9999, when
    a [timedelta] exceeds 999999999 days and when an [int] is too large for a
    [float].  The module [Ranged] embeds the counter, the detectors,
    [compute_confidence] and [set_rates] with these errors.  Where no such
    error occurs its functions return what the definitions above compute
    (lemmas [ranged_count_in_range], [ranged_compute_confidence_in_range] and
    [ranged_set_rates_in_range] below). *)
Module Ranged.

(** Here a [datetime] is the number of microseconds since [datetime.min],
    0001-01-01T00:00:00, and [datetime.max] is 9999-12-31T23:59:59.999999. *)
Definition datetime_max : Z := 3652059 * 86400 * 1000000 - 1.

Definition is_datetime (t : Z) : bool := (0 <=? t) && (t <=? datetime_max).

(** [t - delta] for a [datetime] [t] and a [timedelta] [delta]. *)
Definition datetime_sub (t delta : Z) : outcome Z :=
  if is_datetime (t - delta) then Returned (t - delta) else Raised.

(** [timedelta(seconds=s)] for an [int] [s]: the number of days,
    [s // 86400], may not exceed 999999999 in magnitude. *)
Definition timedelta (s : Z) : outcome Z :=
  if (-999999999 <=? s / 86400) && (s / 86400 <=? 999999999)
  then Returned (timedelta_seconds s)
  else Raised.

(** The least magnitude at which an [int] no longer converts to a [float]:
    from [2^1024 - 2^970] on, rounding gives infinity. *)
Definition float_limit : Z := 2 ^ 1024 - 2 ^ 970.

(** The conversion of an [int] that meets a [float] in a division. *)
Definition float_of_int (n : Z) : outcome R :=
  if Z.abs n <? float_limit then Returned (IZR n) else Raised.

(** [n / max(1.0, thr)] for [int]s [n] and [thr].  [max] returns the [int]
    [thr] when it exceeds [1.0], and the quotient of two [int]s raises only
    when it is too large for a [float]; otherwise the divisor is the [float]
    [1.0] and [n] is converted first. *)
Definition div_by_max1 (n thr : Z) : outcome R :=
  let fits := if 1 <? thr then Z.abs n <? float_limit * thr
              else Z.abs n <? float_limit in
  if fits then Returned (IZR n / Rmax 1 (IZR thr))%R else Raised.

(** Code that threads a state [S] and may raise: the state it leaves comes
    with the outcome, so that effects made before an exception stay. *)
Definition raising (S A : Type) : Type := S -> outcome A * S.

Definition ret {S A : Type} (a : A) : raising S A := fun s => (Returned a, s).

Definition bind {S A B : Type} (m : raising S A) (f : A -> raising S B) : raising S B :=
  fun s => match m s with
           | (Returned a, s') => f a s'
           | (Raised, s') => (Raised, s')
           end.

(** A computation that reads the state and may raise. *)
Definition reads {S A : Type} (f : S -> outcome A) : raising S A := fun s => (f s, s).

(** A value read off the state. *)
Definition gets {S A : Type} (f : S -> A) : raising S A := fun s => (Returned (f s), s).

Notation "'let*' x ':=' m 'in' f" := (bind m (fun x => f))
  (at level 10, x name, m at level 100, f at level 200).

(** [SlidingWindowCounter(window_seconds=...)] *)
Definition SlidingWindowCounter_init (window_seconds : Z) : outcome SlidingWindowCounter :=
  match timedelta window_seconds with
  | Returned w => Returned {| window := w; events := [] |}
  | Raised => Raised
  end.

(** [_prune(self)]: the subtraction comes first, so a counter whose cutoff is
    not a date is left as it is. *)
Definition _prune (now : Z) : raising SlidingWindowCounter unit :=
  fun c => match datetime_sub now (window c) with
           | Returned cutoff =>
               (Returned tt,
                {| window := window c; events := popleft_while cutoff (events c) |})
           | Raised => (Raised, c)
           end.

(** [add(self)]: the timestamp is appended before [_prune] can raise. *)
Definition add (t_append t_prune : Z) : raising SlidingWindowCounter unit :=
  fun c => _prune t_prune {| window := window c; events := events c ++ [t_append] |}.

(** [count(self)] *)
Definition count (now : Z) : raising SlidingWindowCounter Z :=
  let* _ := _prune now in gets (fun c => Z.of_nat (length (events c))).

(** The counter after one call of a history, whether the call returned or
    raised. *)
Definition swc_step (c : SlidingWindowCounter) (op : swc_call) : SlidingWindowCounter :=
  match op with
  | CallAdd ta tp => snd (add ta tp c)
  | CallCount now => snd (count now c)
  end.

Definition swc_run (ops : list swc_call) (c : SlidingWindowCounter) : SlidingWindowCounter :=
  fold_left swc_step ops c.

(** A call on the module-level [file_mod_counter] or [rename_counter]. *)
Definition on_file_mod_counter {A : Type} (m : raising SlidingWindowCounter A)
  : raising State A :=
  fun st => let '(r, c') := m (file_mod_counter st) in (r, with_file_mod_counter c' st).

Definition on_rename_counter {A : Type} (m : raising SlidingWindowCounter A)
  : raising State A :=
  fun st => let '(r, c') := m (rename_counter st) in (r, with_rename_counter c' st).

(** [detect_file_rate_score()] *)
Definition detect_file_rate_score (now : Z) : raising State R :=
  let* cnt := on_file_mod_counter (count now) in
  let* thr := gets (fun st => FILES_MODIFIED_THRESHOLD (runtime_config st)) in
  let* q := reads (fun _ => div_by_max1 cnt thr) in
  ret (Rmin 1 q).

(** [detect_bytes_written_score()] *)
Definition detect_bytes_written_score (st : State) : outcome R :=
  let total := bytes_total (bytes_written_window st) in
  let thr := BYTES_WRITTEN_THRESHOLD (runtime_config st) in
  match div_by_max1 total thr with
  | Returned q => Returned (Rmin 1 q)
  | Raised => Raised
  end.

(** [detect_rename_score()] *)
Definition detect_rename_score (now : Z) : raising State R :=
  let* cnt := on_rename_counter (count now) in
  let* thr := gets (fun st => RENAMES_THRESHOLD (runtime_config st)) in
  let* q := reads (fun _ => div_by_max1 cnt thr) in
  ret (Rmin 1 q).

(** The loop of [detect_proc_behavior_score]: [bytes_written], an [int], is
    divided by the [float] [max(1.0, thr)]. *)
Fixpoint proc_behavior_loop (thr : R) (items : list (Z * list (Z * Z))) (scores : list R)
  : outcome (list R) :=
  match items with
  | [] => Returned scores
  | (pid, dq) :: rest =>
      match dq with
      | [] => proc_behavior_loop thr rest scores
      | hd :: _ =>
          if (2 <=? length dq)%nat then
            match float_of_int (write_delta hd dq) with
            | Raised => Raised
            | Returned bytes_written =>
                let s := Rmin 1 (bytes_written / Rmax 1 thr) in
                if Rlt_dec (1 / 10) s
                then proc_behavior_loop thr rest (scores ++ [s])
                else proc_behavior_loop thr rest scores
            end
          else proc_behavior_loop thr rest scores
      end
  end.

(** [detect_proc_behavior_score()]: [BYTES_WRITTEN_THRESHOLD / 10.0] converts
    the threshold before the loop starts. *)
Definition detect_proc_behavior_score (st : State) : outcome R :=
  match float_of_int (BYTES_WRITTEN_THRESHOLD (runtime_config st)) with
  | Raised => Raised
  | Returned t =>
      let thr := (t / 10)%R in
      match proc_behavior_loop thr (map_to_list (proc_writes st)) [] with
      | Raised => Raised
      | Returned scores => Returned (Rmax_list_or_zero scores)
      end
  end.

(** [detect_ml_score()] *)
Definition detect_ml_score `{Host} (now_fc now_rc : Z) : raising State R :=
  fun st =>
    match ml_model st with
    | None => (Returned 0%R, st)
    | Some decision_function =>
        if negb ML_AVAILABLE then (Returned 0%R, st)
        else
          (let* fc := on_file_mod_counter (count now_fc) in
           let* bt := gets (fun st1 => bytes_total (bytes_written_window st1)) in
           let* rc := on_rename_counter (count now_rc) in
           let* proc_max := gets (fun st2 => proc_max_delta (map snd (map_to_list (proc_writes st2)))) in
           let score_raw := decision_function fc bt rc proc_max in
           ret (if Rlt_dec score_raw 0 then Rmin 1 (- score_raw / 10) else 0%R)) st
    end.

(** [compute_confidence()]: the dictionary display evaluates the detectors
    in order, and the first exception ends the call. *)
Definition compute_confidence `{Host} (ck : eval_clock) (w : World)
  : raising State (R * list (string * R)) :=
  let* s_file := detect_file_rate_score (ck_file_rate ck) in
  let* s_bytes := reads detect_bytes_written_score in
  let* s_rename := detect_rename_score (ck_rename ck) in
  let* s_note := gets (detect_ransom_note_score w) in
  let* s_entropy := gets (detect_entropy_score w) in
  let* s_proc := reads detect_proc_behavior_score in
  let* s_ml := detect_ml_score (ck_ml_file_rate ck) (ck_ml_rename ck) in
  let detectors :=
    [ ("file_rate"%string, s_file);
      ("bytes_written"%string, s_bytes);
      ("rename_spike"%string, s_rename);
      ("ransom_note"%string, s_note);
      ("entropy"%string, s_entropy);
      ("proc_behavior"%string, s_proc);
      ("ml_score"%string, s_ml) ] in
  ret (fuse detectors, detectors).

(** [set_rates(request)].  The loop over the items catches what the
    conversions raise; the counters are rebuilt outside any [try], so an
    [OverflowError] of [timedelta] leaves the endpoint, and the server
    answers with status 500, after the configuration was stored. *)
Definition set_rates `{Builtins} (payload : list (string * json))
  : raising State response :=
  fun st =>
    match set_rates_loop payload (runtime_config st) ∅ with
    | (Some error, c, _) => (Returned (Error400 error), with_runtime_config c st)
    | (None, c, updated) =>
        let st1 := with_runtime_config c st in
        if bool_decide ("TIME_WINDOW_SECONDS"%string ∈ dom updated) then
          match SlidingWindowCounter_init (TIME_WINDOW_SECONDS (runtime_config st1)) with
          | Raised => (Raised, st1)
          | Returned fresh_file =>
              let st2 := with_file_mod_counter fresh_file st1 in
              match SlidingWindowCounter_init (TIME_WINDOW_SECONDS (runtime_config st2)) with
              | Raised => (Raised, st2)
              | Returned fresh_rename =>
                  (Returned (Ok200 updated), with_rename_counter fresh_rename st2)
              end
          end
        else (Returned (Ok200 updated), st1)
    end.

End Ranged.


(** An [int] that converts to a [float]. *)
Definition fits_float (n : Z) : Prop := Z.abs n < Ranged.float_limit.

(* ===================================================================== *)
(** * Theorems *)

(** ** Sliding-window counter *)

Lemma popleft_while_suffix cutoff evs :
  exists dropped, evs = dropped ++ popleft_while cutoff evs
                  /\ Forall (fun e => e < cutoff) dropped.
Proof.
  induction evs as [|e rest IH]; simpl.
  - exists []. split; [reflexivity | constructor].
  - destruct (Z.ltb_spec e cutoff) as [Hlt | Hge].
    + destruct IH as (dropped & Heq & Hall).
      exists (e :: dropped). split.
      * simpl. congruence.
      * constructor; assumption.
    + exists []. split; [reflexivity | constructor].
Qed.

Lemma popleft_while_keeps cutoff evs t :
  In t evs -> cutoff <= t -> In t (popleft_while cutoff evs).
Proof.
  intros Hin Hge.
  destruct (popleft_while_suffix cutoff evs) as (dropped & Heq & Hall).
  rewrite Heq in Hin. apply in_app_or in Hin. destruct Hin as [Hin | Hin]; [| exact Hin].
  rewrite List.Forall_forall in Hall. apply Hall in Hin. lia.
Qed.
















(** *** The counter with range errors *)


Lemma ranged_prune_out_of_range now c :
  Ranged.is_datetime (now - window c) = false ->
  Ranged._prune now c = (Raised, c).
Proof.
  intros Hdate. unfold Ranged._prune, Ranged.datetime_sub. now rewrite Hdate.
Qed.


Lemma ranged_count_out_of_range now c :
  Ranged.is_datetime (now - window c) = false ->
  Ranged.count now c = (Raised, c).
Proof.
  intros Hdate. unfold Ranged.count, Ranged.bind.
  now rewrite (ranged_prune_out_of_range _ _ Hdate).
Qed.









(** The claim of C3 as worded fails in two ways.  Pruning stops at the first
    event that is recent enough: after the clock has stepped back from
    12:01:40 to 12:00:50, a stale event behind a recent one is still counted
    at 12:01:45 with a 10 s window.  And a window of [10^11] seconds, which
    [timedelta] accepts, puts the cutoff before the year 1: [count()] raises
    instead of returning 0. *)
Lemma count_differs_from_events_in_window :
  (let ops := [CallAdd 63929304100000000 63929304100000001;
               CallAdd 63929304050000000 63929304050000001] in
   exists c0,
     Ranged.SlidingWindowCounter_init 10 = Returned c0
     /\ fst (Ranged.count 63929304105000000 (Ranged.swc_run ops c0)) = Returned 2
     /\ List.filter (in_window (timedelta_seconds 10) 63929304105000000) (swc_recorded ops)
        = [63929304100000000])
  /\ (exists c0,
        Ranged.SlidingWindowCounter_init 100000000000 = Returned c0
        /\ Ranged.is_datetime 63929304000000000 = true
        /\ fst (Ranged.count 63929304000000000 c0) = Raised).
Proof.
  split.
  - eexists. split; [reflexivity |]. split; reflexivity.
  - eexists. split; [reflexivity |]. split; reflexivity.
Qed.

(** ** Quarantine *)

Lemma write_file_other fate dest data w r w' p :
  write_file fate dest data w = (r, w') -> p <> dest ->
  files w' !! p = files w !! p.
Proof.
  intros Hw Hne. destruct fate; simpl in Hw; inversion Hw; subst; simpl;
    try reflexivity; now rewrite lookup_insert_ne.
Qed.

Lemma write_file_returned fate dest data w w' :
  write_file fate dest data w = (Returned tt, w') ->
  files w' !! dest = Some data.
Proof.
  destruct fate; simpl; intros Hw; inversion Hw; subst; simpl.
  apply lookup_insert_eq.
Qed.

Lemma copy2_source_kept fate src dst w r w' :
  copy2 fate src dst w = (r, w') -> files w' !! src = files w !! src.
Proof.
  unfold copy2. destruct (decide (src = dst)) as [Heq | Hne].
  - intros Hc; inversion Hc; reflexivity.
  - destruct (open_read w src) as [data |].
    + intros Hc. eapply write_file_other; eauto.
    + intros Hc; inversion Hc; reflexivity.
Qed.

Lemma copy2_returned fate src dst w u w' :
  copy2 fate src dst w = (Returned u, w') ->
  src <> dst /\ exists data, files w !! src = Some data /\ files w' !! dst = Some data.
Proof.
  unfold copy2. destruct (decide (src = dst)) as [Heq | Hne]; [discriminate |].
  unfold open_read. destruct (decide (src ∈ unreadable w)); [discriminate |].
  destruct (files w !! src) as [data |] eqn:Hsrc; [| discriminate].
  intros Hc. split; [exact Hne |]. exists data. split; [reflexivity |].
  destruct u. eapply write_file_returned; eauto.
Qed.

(** C2. [move_to_quarantine] removes the original only after the copy has
    succeeded: when [copy2] raises, the call raises with the source as it
    was, and whenever the source is gone after the call, the call returned
    the destination and the destination holds the source's contents. *)
Theorem move_to_quarantine_removes_only_after_copy `{Host}
    (io : quarantine_io) (path : Path) (w : World) :
  let dest := quarantine_dest io path in
  let result := move_to_quarantine io path w in
  (forall w1, copy2 (quar_copy io) path dest w = (Raised, w1) ->
     fst result = Raised /\ files (snd result) !! path = files w !! path)
  /\ (forall data, files w !! path = Some data ->
        files (snd result) !! path = None ->
        fst result = Returned dest /\ files (snd result) !! dest = Some data).
Proof.
  intros dest result. subst result. unfold move_to_quarantine. fold dest.
  destruct (quar_mkdir_ok io); simpl.
  - destruct (copy2 (quar_copy io) path dest w) as [[u |] w1] eqn:Hcopy.
    + split; [intros w1' Hc; discriminate |].
      pose proof (copy2_source_kept _ _ _ _ _ _ Hcopy) as Hkept.
      apply copy2_returned in Hcopy. destruct Hcopy as (Hne & data' & Hsrc & Hdst).
      intros data Hdata Hgone. rewrite Hdata in Hsrc. inversion Hsrc; subst data'.
      unfold unlink in *. destruct (quar_unlink_ok io); simpl in *.
      * split; [reflexivity |]. rewrite lookup_delete_ne by exact Hne. exact Hdst.
      * congruence.
    + split.
      * intros w1' Hc. inversion Hc; subst w1'. simpl. split; [reflexivity |].
        eapply copy2_source_kept; eauto.
      * intros data Hdata Hgone. simpl in Hgone.
        erewrite copy2_source_kept in Hgone by eauto. congruence.
  - split.
    + intros w1 Hc. split; reflexivity.
    + intros data Hdata Hgone. simpl in Hgone. congruence.
Qed.

(** C2 at a concrete input: the copy succeeds and the original is removed, and
    the quarantine directory then holds the original bytes; with a copy that
    fails on opening the destination, the original stays. *)
Lemma move_to_quarantine_removes_only_after_copy_witness :
  let ok := mkQuarantineIO true 1700000000 WriteOk true in
  let failing := mkQuarantineIO true 1700000000 OpenFails true in
  let dest := @quarantine_dest example_host ok example_file in
  (files example_world !! example_file = Some [x41; x42]
   /\ files (snd (@move_to_quarantine example_host ok example_file example_world))
        !! example_file = None
   /\ files (snd (@move_to_quarantine example_host ok example_file example_world))
        !! dest = Some [x41; x42])
  /\ (copy2 OpenFails example_file dest example_world = (Raised, example_world)
      /\ files (snd (@move_to_quarantine example_host failing example_file example_world))
           !! example_file = Some [x41; x42]).
Proof.
  intros ok failing dest.
  assert (Hfile : files example_world !! example_file = Some [x41; x42]) by reflexivity.
  assert (Hgone : files (snd (@move_to_quarantine example_host ok example_file example_world))
                    !! example_file = None) by (vm_compute; reflexivity).
  assert (Hraise : copy2 OpenFails example_file dest example_world = (Raised, example_world))
    by (vm_compute; reflexivity).
  split.
  - split; [exact Hfile |]. split; [exact Hgone |].
    apply (@move_to_quarantine_removes_only_after_copy example_host ok example_file
             example_world); assumption.
  - split; [exact Hraise |].
    destruct (@move_to_quarantine_removes_only_after_copy example_host failing example_file
                example_world) as (Hfail & _).
    destruct (Hfail _ Hraise) as (_ & Hkept). rewrite Hkept. exact Hfile.
Defined.

(** ** Rate scores *)

Section RateScore.
Local Open Scope R_scope.

Lemma Rmax_1_pos x : 0 < Rmax 1 x.
Proof. pose proof (Rmax_l 1 x). lra. Qed.

(** The shape shared by the three rate detectors. *)
Lemma rate_score_bounds (cnt thr : Z) :
  (0 <= cnt)%Z -> 0 <= Rmin 1 (IZR cnt / Rmax 1 (IZR thr)) <= 1.
Proof.
  intros Hcnt. split; [| apply Rmin_l].
  apply Rmin_glb; [lra |].
  apply Rmult_le_pos; [now apply IZR_le |].
  left. apply Rinv_0_lt_compat, Rmax_1_pos.
Qed.

Lemma rate_score_monotone (c1 c2 thr : Z) :
  (c1 <= c2)%Z ->
  Rmin 1 (IZR c1 / Rmax 1 (IZR thr)) <= Rmin 1 (IZR c2 / Rmax 1 (IZR thr)).
Proof.
  intros Hle. apply Rle_min_compat_l.
  apply Rmult_le_compat_r; [| now apply IZR_le].
  left. apply Rinv_0_lt_compat, Rmax_1_pos.
Qed.

Lemma rate_score_saturates (cnt thr : Z) :
  (Z.max 1 thr <= cnt)%Z -> Rmin 1 (IZR cnt / Rmax 1 (IZR thr)) = 1.
Proof.
  intros Hge. apply Rmin_left.
  assert (Hd : Rmax 1 (IZR thr) <= IZR cnt).
  { apply Rmax_lub; apply IZR_le; lia. }
  pose proof (Rmax_1_pos (IZR thr)) as Hpos.
  apply (Rmult_le_reg_r (Rmax 1 (IZR thr))); [exact Hpos |].
  unfold Rdiv. rewrite Rmult_assoc, Rinv_l by lra. lra.
Qed.
End RateScore.

Lemma count_nonneg now c : 0 <= fst (count now c).
Proof. unfold count; simpl. lia. Qed.

(** A state differing from [st] in its file-rate counter only. *)
Lemma detect_file_rate_score_eq now st :
  fst (detect_file_rate_score now st)
  = Rmin 1 (IZR (fst (count now (file_mod_counter st)))
            / Rmax 1 (IZR (FILES_MODIFIED_THRESHOLD (runtime_config st)))).
Proof. reflexivity. Qed.

(** C9, as the code has it.  The [file_rate] score does not decrease when the
    number of events counted in the window grows, and it is exactly 1
    whenever that number is at least [max(1, FILES_MODIFIED_THRESHOLD)]. *)
Theorem file_rate_monotone_and_saturating (now1 now2 : Z) (st1 st2 : State) :
  let cnt1 := fst (count now1 (file_mod_counter st1)) in
  let cnt2 := fst (count now2 (file_mod_counter st2)) in
  let thr := FILES_MODIFIED_THRESHOLD (runtime_config st1) in
  (FILES_MODIFIED_THRESHOLD (runtime_config st2) = thr ->
   cnt1 <= cnt2 ->
   (fst (detect_file_rate_score now1 st1) <= fst (detect_file_rate_score now2 st2))%R)
  /\ (Z.max 1 thr <= cnt1 -> fst (detect_file_rate_score now1 st1) = 1%R).
Proof.
  intros cnt1 cnt2 thr. rewrite !detect_file_rate_score_eq. split.
  - intros -> Hle. now apply rate_score_monotone.
  - intros Hge. now apply rate_score_saturates.
Qed.

(** C9 at a concrete input: threshold 5; two events in the window score no
    more than five, and five events saturate the score. *)
Lemma file_rate_monotone_and_saturating_witness :
  let st2 := example_rate_state 5 [1000000; 2000000] in
  let st5 := example_rate_state 5 [1000000; 2000000; 3000000; 4000000; 5000000] in
  (fst (detect_file_rate_score 6000000 st2) <= fst (detect_file_rate_score 6000000 st5))%R
  /\ fst (detect_file_rate_score 6000000 st5) = 1%R.
Proof.
  intros st2 st5.
  destruct (file_rate_monotone_and_saturating 6000000 6000000 st2 st5) as (Hmono & _).
  destruct (file_rate_monotone_and_saturating 6000000 6000000 st5 st5) as (_ & Hsat).
  split.
  - apply Hmono; [reflexivity | vm_compute; discriminate].
  - apply Hsat. vm_compute. discriminate.
Defined.

(** The claim of C9 as worded fails when the threshold is below 1: after
    [/set_rates] has stored [FILES_MODIFIED_THRESHOLD = 0] in the initial
    state, with no event in the window, the count reaches the threshold and
    the score is 0. *)
Lemma file_rate_not_saturated_at_zero_threshold :
  let st := snd (@set_rates example_builtins
                   [("FILES_MODIFIED_THRESHOLD"%string, JInt 0)] initial_state) in
  FILES_MODIFIED_THRESHOLD (runtime_config st) <= fst (count 6000000 (file_mod_counter st))
  /\ fst (detect_file_rate_score 6000000 st) = 0%R
  /\ fst (detect_file_rate_score 6000000 st) <> 1%R.
Proof.
  intros st.
  assert (Hscore : fst (detect_file_rate_score 6000000 st) = 0%R).
  { rewrite detect_file_rate_score_eq. simpl.
    rewrite Rmin_right; unfold Rdiv; rewrite Rmult_0_l; [reflexivity | lra]. }
  split; [vm_compute; discriminate |]. split; [exact Hscore |].
  rewrite Hscore. lra.
Qed.

(** ** Detector scores and fused confidence lie in the unit interval *)

Lemma fold_sizes_nonneg (dq : list (Z * Z)) : forall acc,
  0 <= acc ->
  Forall (fun sample : Z * Z => 0 <= snd sample) dq ->
  0 <= fold_left (fun a s => a + snd s) dq acc.
Proof.
  induction dq as [|s dq IH]; intros acc Hacc Hall; simpl; [exact Hacc |].
  inversion Hall; subst. apply IH; [lia | assumption].
Qed.

Lemma bytes_total_nonneg dq :
  Forall (fun sample : Z * Z => 0 <= snd sample) dq -> 0 <= bytes_total dq.
Proof. intros Hall. unfold bytes_total. now apply fold_sizes_nonneg. Qed.

Section UnitInterval.
Local Open Scope R_scope.

Lemma ransom_note_loop_unit w ps : in_unit_interval (ransom_note_loop w ps).
Proof.
  unfold in_unit_interval. induction ps as [|p ps IH]; simpl; [lra |].
  destruct (negb (path_exists w p)); [exact IH |].
  destruct (matches_ransom_pattern (upper (path_name p))); [lra | exact IH].
Qed.

(** *** Entropy is not negative *)

Lemma freq_incr_total b freq : freq_total (freq_incr b freq) = (freq_total freq + 1)%Z.
Proof.
  induction freq as [|[b' n] rest IH]; simpl; [reflexivity |].
  destruct (Byte.eqb b b'); simpl; [lia | rewrite IH; lia].
Qed.

Lemma freq_incr_positive b freq :
  Forall (fun kv : byte * Z => (1 <= snd kv)%Z) freq ->
  Forall (fun kv : byte * Z => (1 <= snd kv)%Z) (freq_incr b freq).
Proof.
  induction freq as [|[b' n] rest IH]; simpl; intros Hall.
  - repeat constructor. simpl. lia.
  - inversion Hall as [|? ? Hn Hrest]; subst. simpl in Hn.
    destruct (Byte.eqb b b'); constructor; simpl; auto; lia.
Qed.

Lemma byte_freq_fold data : forall freq,
  Forall (fun kv : byte * Z => (1 <= snd kv)%Z) freq ->
  let freq' := fold_left (fun f b => freq_incr b f) data freq in
  Forall (fun kv : byte * Z => (1 <= snd kv)%Z) freq'
  /\ freq_total freq' = (freq_total freq + Z.of_nat (length data))%Z.
Proof.
  induction data as [|b data IH]; intros freq Hall; simpl.
  - split; [exact Hall | lia].
  - destruct (IH (freq_incr b freq) (freq_incr_positive b freq Hall)) as (Hpos & Htot).
    split; [exact Hpos |]. rewrite Htot, freq_incr_total. lia.
Qed.

Lemma freq_member_le_total freq v :
  Forall (fun kv : byte * Z => (1 <= snd kv)%Z) freq ->
  In v (map snd freq) -> (1 <= v <= freq_total freq)%Z.
Proof.
  induction freq as [|[b n] rest IH]; simpl; intros Hall Hin; [contradiction |].
  inversion Hall as [|? ? Hn Hrest]; subst. simpl in Hn.
  assert (Hrest_nonneg : (0 <= freq_total rest)%Z).
  { clear -Hrest. induction rest as [|[b' m] rest IH]; simpl; [lia |].
    inversion Hrest; subst; simpl in *. specialize (IH ltac:(assumption)). lia. }
  destruct Hin as [<- | Hin]; [lia |].
  specialize (IH Hrest Hin). lia.
Qed.

Lemma byte_freq_counts data v :
  In v (map snd (byte_freq data)) -> (1 <= v <= Z.of_nat (length data))%Z.
Proof.
  intros Hin. unfold byte_freq in Hin.
  destruct (byte_freq_fold data [] (List.Forall_nil _)) as (Hpos & Htot).
  simpl in Htot. pose proof (freq_member_le_total _ _ Hpos Hin) as Hv. lia.
Qed.

Lemma ln_2_pos : 0 < ln 2.
Proof. rewrite <- ln_1. apply ln_increasing; lra. Qed.

(** [- p * log2 p] is not negative for a probability [p]. *)
Lemma plogp_nonpos p : 0 < p <= 1 -> p * log2 p <= 0.
Proof.
  intros (Hpos & Hle). unfold log2.
  assert (Hln : ln p <= 0).
  { rewrite <- ln_1. destruct Hle as [Hlt | ->]; [| lra].
    left. now apply ln_increasing. }
  pose proof ln_2_pos as H2.
  assert (Hq : ln p / ln 2 <= 0).
  { unfold Rdiv. replace 0 with (0 * / ln 2) by ring.
    apply Rmult_le_compat_r; [| exact Hln]. left. now apply Rinv_0_lt_compat. }
  replace 0 with (p * 0) by ring. apply Rmult_le_compat_l; lra.
Qed.

Lemma entropy_fold_nonneg (n : Z) (vs : list Z) : forall acc,
  (0 < n)%Z -> (forall v, In v vs -> (1 <= v <= n)%Z) -> 0 <= acc ->
  0 <= fold_left (fun ent v => let p := IZR v / IZR n in ent - p * log2 p) vs acc.
Proof.
  induction vs as [|v vs IH]; intros acc Hn Hvs Hacc; simpl; [exact Hacc |].
  apply IH; [exact Hn | intros u Hu; apply Hvs; now right |].
  assert (Hv : (1 <= v <= n)%Z) by (apply Hvs; now left).
  assert (Hp : 0 < IZR v / IZR n <= 1).
  { assert (0 < IZR n) by (apply IZR_lt; lia).
    assert (0 < IZR v) by (apply IZR_lt; lia).
    assert (IZR v <= IZR n) by (apply IZR_le; lia).
    split.
    - apply Rdiv_lt_0_compat; assumption.
    - apply (Rmult_le_reg_r (IZR n)); [assumption |].
      unfold Rdiv. rewrite Rmult_assoc, Rinv_l by lra. lra. }
  pose proof (plogp_nonpos _ Hp). lra.
Qed.

Lemma entropy_nonneg data : 0 <= entropy data.
Proof.
  unfold entropy. destruct data as [|b data]; [lra |].
  apply entropy_fold_nonneg.
  - simpl length. lia.
  - intros v Hv. now apply byte_freq_counts.
  - lra.
Qed.
End UnitInterval.

Section Scores.
Local Open Scope R_scope.

Lemma capped_ratio_unit e d : 0 <= e -> 0 < d -> in_unit_interval (Rmin 1 (e / d)).
Proof.
  intros He Hd. split; [| apply Rmin_l].
  apply Rmin_glb; [lra |]. apply Rmult_le_pos; [exact He |].
  left. now apply Rinv_0_lt_compat.
Qed.

Lemma entropy_floor_pos thr : 0 < Rmax (1 / 1000) thr.
Proof. pose proof (Rmax_l (1 / 1000) thr). lra. Qed.

Lemma entropy_loop_unit w thr sampled : forall scores,
  Forall in_unit_interval scores ->
  Forall in_unit_interval (entropy_loop w thr sampled scores).
Proof.
  induction sampled as [|p rest IH]; intros scores Hall; simpl; [exact Hall |].
  destruct (open_read w p) as [content |]; [| now apply IH].
  apply IH. apply Forall_app. split; [exact Hall |].
  constructor; [| constructor].
  apply capped_ratio_unit; [apply entropy_nonneg | apply entropy_floor_pos].
Qed.

Lemma fold_Rplus_bounds xs : forall acc,
  Forall in_unit_interval xs ->
  acc <= fold_left Rplus xs acc <= acc + INR (length xs).
Proof.
  induction xs as [|x xs IH]; intros acc Hall.
  - simpl. lra.
  - inversion Hall as [|? ? Hx Hxs]; subst. destruct Hx as (Hx0 & Hx1).
    specialize (IH (acc + x) Hxs). change (fold_left Rplus (x :: xs) acc)
      with (fold_left Rplus xs (acc + x)).
    rewrite length_cons, S_INR. lra.
Qed.

Lemma average_unit xs :
  xs <> [] -> Forall in_unit_interval xs ->
  in_unit_interval (Rsum xs / INR (length xs)).
Proof.
  intros Hne Hall. unfold Rsum.
  pose proof (fold_Rplus_bounds xs 0 Hall) as (Hlo & Hhi).
  assert (Hlen : 0 < INR (length xs)).
  { apply lt_0_INR. destruct xs; [congruence | simpl; lia]. }
  split.
  - apply Rmult_le_pos; [lra |]. left. now apply Rinv_0_lt_compat.
  - apply (Rmult_le_reg_r (INR (length xs))); [exact Hlen |].
    unfold Rdiv. rewrite Rmult_assoc, Rinv_l by lra. lra.
Qed.

Lemma detect_entropy_score_unit w st : in_unit_interval (detect_entropy_score w st).
Proof.
  unfold detect_entropy_score.
  pose proof (entropy_loop_unit w (ENTROPY_THRESHOLD (runtime_config st))
                (firstn 5 (recent_modified_files st)) [] (Forall_nil_2 _)) as Hall.
  destruct (entropy_loop _ _ _ _) as [|s scores] eqn:Hscores.
  - split; lra.
  - apply average_unit; [discriminate | exact Hall].
Qed.

Lemma proc_behavior_loop_unit thr items : forall scores,
  Forall in_unit_interval scores ->
  Forall in_unit_interval (proc_behavior_loop thr items scores).
Proof.
  induction items as [|[pid dq] rest IH]; intros scores Hall;
    cbn [proc_behavior_loop]; [exact Hall |].
  destruct dq as [|hd tl]; [now apply IH |].
  destruct (Nat.leb 2 (length (hd :: tl))); [| now apply IH].
  destruct (Rlt_dec _ _) as [Hgt | Hle]; [| now apply IH].
  apply IH. apply Forall_app. split; [exact Hall |].
  constructor; [| constructor].
  split; [| apply Rmin_l]. lra.
Qed.

Lemma fold_Rmax_unit xs : forall acc,
  in_unit_interval acc -> Forall in_unit_interval xs ->
  in_unit_interval (fold_left Rmax xs acc).
Proof.
  induction xs as [|x xs IH]; intros acc Hacc Hall; simpl; [exact Hacc |].
  inversion Hall; subst. apply IH; [| assumption].
  unfold in_unit_interval in *. unfold Rmax. destruct (Rle_dec acc x); assumption.
Qed.

Lemma detect_proc_behavior_score_unit st :
  in_unit_interval (detect_proc_behavior_score st).
Proof.
  unfold detect_proc_behavior_score.
  pose proof (proc_behavior_loop_unit
                (IZR (BYTES_WRITTEN_THRESHOLD (runtime_config st)) / 10)
                (map_to_list (proc_writes st)) [] (Forall_nil_2 _)) as Hall.
  destruct (proc_behavior_loop _ _ _) as [|s scores]; simpl.
  - split; lra.
  - inversion Hall; subst. now apply fold_Rmax_unit.
Qed.

Lemma detect_ml_score_unit `{Host} now_fc now_rc st :
  in_unit_interval (fst (detect_ml_score now_fc now_rc st)).
Proof.
  unfold detect_ml_score.
  destruct (ml_model st) as [decision_function |]; [| simpl; split; lra].
  destruct ML_AVAILABLE; simpl; [| split; lra].
  destruct (Rlt_dec _ _) as [Hneg | Hpos]; [| split; lra].
  split; [| apply Rmin_l]. apply Rmin_glb; lra.
Qed.

Lemma weight_sum_value : weight_sum = 14 / 10.
Proof.
  unfold weight_sum, Rsum. simpl.
  destruct (Req_dec_T _ _) as [Hz | Hnz]; lra.
Qed.

(** Fusion of a breakdown carrying the seven detector names. *)
Lemma fuse_seven_unit s1 s2 s3 s4 s5 s6 s7 :
  in_unit_interval s1 -> in_unit_interval s2 -> in_unit_interval s3 ->
  in_unit_interval s4 -> in_unit_interval s5 -> in_unit_interval s6 ->
  in_unit_interval s7 ->
  in_unit_interval
    (fuse [ ("file_rate"%string, s1); ("bytes_written"%string, s2);
            ("rename_spike"%string, s3); ("ransom_note"%string, s4);
            ("entropy"%string, s5); ("proc_behavior"%string, s6);
            ("ml_score"%string, s7) ]).
Proof.
  unfold in_unit_interval, fuse, weighted_sum, Rsum.
  rewrite weight_sum_value. simpl. unfold weights_get. simpl. intros.
  split.
  - apply Rmult_le_pos; [nra | lra].
  - apply (Rmult_le_reg_r (14 / 10)); [lra |].
    unfold Rdiv at 1. rewrite Rmult_assoc, Rinv_l by lra. nra.
Qed.
End Scores.

Lemma detect_file_rate_score_unit now st :
  in_unit_interval (fst (detect_file_rate_score now st)).
Proof. rewrite detect_file_rate_score_eq. apply rate_score_bounds, count_nonneg. Qed.

Lemma detect_bytes_written_score_unit st :
  sizes_nonneg st -> in_unit_interval (detect_bytes_written_score st).
Proof.
  intros Hsizes. unfold detect_bytes_written_score.
  apply rate_score_bounds, bytes_total_nonneg, Hsizes.
Qed.

Lemma detect_rename_score_unit now st :
  in_unit_interval (fst (detect_rename_score now st)).
Proof.
  unfold detect_rename_score.
  change (fst _) with (Rmin 1 (IZR (fst (count now (rename_counter st)))
                               / Rmax 1 (IZR (RENAMES_THRESHOLD (runtime_config st))))).
  apply rate_score_bounds, count_nonneg.
Qed.

(** The breakdown and the confidence computed in one evaluation. *)
Lemma compute_confidence_unit `{Host} ck w st :
  sizes_nonneg st ->
  Forall (fun kv => in_unit_interval (snd kv)) (snd (fst (compute_confidence ck w st)))
  /\ in_unit_interval (fst (fst (compute_confidence ck w st))).
Proof.
  intros Hsizes. unfold compute_confidence.
  destruct (detect_file_rate_score (ck_file_rate ck) st) as [s_file st1] eqn:H1.
  destruct (detect_rename_score (ck_rename ck) st1) as [s_rename st2] eqn:H2.
  destruct (detect_ml_score (ck_ml_file_rate ck) (ck_ml_rename ck) st2) as [s_ml st3] eqn:H3.
  simpl fst; simpl snd.
  assert (Hs1 : in_unit_interval s_file).
  { change s_file with (fst (s_file, st1)). rewrite <- H1.
    apply detect_file_rate_score_unit. }
  assert (Hs2 : in_unit_interval (detect_bytes_written_score st1)).
  { apply detect_bytes_written_score_unit. unfold detect_file_rate_score in H1.
    destruct (count _ _) in H1. inversion H1. exact Hsizes. }
  assert (Hs3 : in_unit_interval s_rename).
  { change s_rename with (fst (s_rename, st2)). rewrite <- H2.
    apply detect_rename_score_unit. }
  assert (Hs7 : in_unit_interval s_ml).
  { change s_ml with (fst (s_ml, st3)). rewrite <- H3. apply detect_ml_score_unit. }
  pose proof (ransom_note_loop_unit w (recent_modified_files st2)) as Hs4.
  pose proof (detect_entropy_score_unit w st2) as Hs5.
  pose proof (detect_proc_behavior_score_unit st2) as Hs6.
  split.
  - repeat (apply List.Forall_cons; [assumption |]). apply List.Forall_nil.
  - now apply fuse_seven_unit.
Qed.


(** [sizes_nonneg] holds initially and every transition keeps it. *)
Lemma sizes_nonneg_initial : sizes_nonneg initial_state.
Proof. constructor. Qed.

Lemma popleft_while_ts_Forall (P : Z * Z -> Prop) cutoff dq :
  Forall P dq -> Forall P (popleft_while_ts cutoff dq).
Proof.
  induction dq as [|[ts v] rest IH]; simpl; intros Hall; [constructor |].
  inversion Hall; subst. destruct (ts <? cutoff); [now apply IH | exact Hall].
Qed.

Lemma stat_size_nonneg w p : 0 <= stat_size w p.
Proof. unfold stat_size. destruct (files w !! p); lia. Qed.

Lemma sizes_nonneg_on_modified `{Host} ck w path st :
  sizes_nonneg st -> sizes_nonneg (on_modified ck w path st).
Proof.
  unfold sizes_nonneg, on_modified. intros Hall.
  destruct (negb (inside_sandbox path)); [exact Hall |]. simpl.
  apply popleft_while_ts_Forall, Forall_app. split; [exact Hall |].
  constructor; [apply stat_size_nonneg | constructor].
Qed.

Lemma sizes_nonneg_on_created `{Host} ta tp path st :
  sizes_nonneg st -> sizes_nonneg (on_created ta tp path st).
Proof. unfold sizes_nonneg, on_created. now destruct (negb (inside_sandbox path)). Qed.

Lemma sizes_nonneg_on_moved `{Host} ta tp dst st :
  sizes_nonneg st -> sizes_nonneg (on_moved ta tp dst st).
Proof. unfold sizes_nonneg, on_moved. now destruct (negb (inside_sandbox dst)). Qed.

Lemma sizes_nonneg_set_rates `{Builtins} payload st :
  sizes_nonneg st -> sizes_nonneg (snd (set_rates payload st)).
Proof.
  unfold sizes_nonneg, set_rates. intros Hall.
  destruct (set_rates_loop payload (runtime_config st) ∅) as [[[msg |] c] updated];
    [exact Hall |].
  destruct (bool_decide _); exact Hall.
Qed.

Lemma sizes_nonneg_agent_cycle `{Host} ck io st w :
  sizes_nonneg st -> sizes_nonneg (snd (fst (agent_cycle ck io st w))).
Proof.
  unfold sizes_nonneg, agent_cycle, compute_confidence, detect_file_rate_score,
    detect_rename_score, detect_ml_score, count. intros Hall. simpl.
  destruct (ml_model st) as [decision_function |]; simpl.
  - destruct ML_AVAILABLE; simpl; destruct (Rle_dec _ _); simpl;
      try destruct (snapshot_and_alert _ _ _ _ _); exact Hall.
  - destruct (Rle_dec _ _); simpl; try destruct (snapshot_and_alert _ _ _ _ _); exact Hall.
Qed.


(** ** The frequency table of [entropy] is the histogram of the bytes *)

Lemma byte_eqb_refl b : Byte.eqb b b = true.
Proof. now apply Byte.byte_dec_lb. Qed.

Lemma freq_get_incr b b' freq :
  freq_get b (freq_incr b' freq)
  = if Byte.eqb b b' then freq_get b freq + 1 else freq_get b freq.
Proof.
  unfold freq_get. induction freq as [|[c n] rest IH]; simpl.
  - destruct (Byte.eqb b b'); reflexivity.
  - destruct (Byte.eqb b' c) eqn:Hbc; simpl.
    + apply Byte.byte_dec_bl in Hbc. subst c.
      destruct (Byte.eqb b b'); reflexivity.
    + destruct (Byte.eqb b c) eqn:Hc; simpl; [| exact IH].
      destruct (Byte.eqb b b') eqn:Hb; [| reflexivity].
      apply Byte.byte_dec_bl in Hb. apply Byte.byte_dec_bl in Hc. subst.
      rewrite byte_eqb_refl in Hbc. discriminate.
Qed.

Lemma freq_incr_keys b freq x :
  In x (map fst (freq_incr b freq)) <-> x = b \/ In x (map fst freq).
Proof.
  induction freq as [|[c n] rest IH]; simpl.
  - intuition.
  - destruct (Byte.eqb b c) eqn:Hbc; simpl.
    + apply Byte.byte_dec_bl in Hbc. subst c. intuition.
    + rewrite IH. intuition.
Qed.

Lemma freq_incr_NoDup b freq :
  List.NoDup (map fst freq) -> List.NoDup (map fst (freq_incr b freq)).
Proof.
  induction freq as [|[c n] rest IH]; simpl; intros Hnd.
  - constructor; [intros [] | constructor].
  - inversion Hnd as [|? ? Hnotin Hrest]; subst.
    destruct (Byte.eqb b c) eqn:Hbc; simpl.
    + constructor; assumption.
    + constructor; [| now apply IH].
      rewrite freq_incr_keys. intros [-> | Hin]; [| contradiction].
      rewrite byte_eqb_refl in Hbc. discriminate.
Qed.

Lemma occurrences_snoc b data b' :
  occurrences b (data ++ [b'])
  = if Byte.eqb b b' then occurrences b data + 1 else occurrences b data.
Proof.
  unfold occurrences. rewrite List.filter_app, length_app. simpl.
  destruct (Byte.eqb b b'); simpl; lia.
Qed.

(** The table built by [entropy] lists every byte value of [data] once, with
    the number of its occurrences. *)
Lemma byte_freq_histogram data :
  List.NoDup (map fst (byte_freq data))
  /\ (forall b, In b (map fst (byte_freq data)) <-> In b data)
  /\ (forall b, freq_get b (byte_freq data) = occurrences b data).
Proof.
  induction data as [|b' data IH] using rev_ind.
  - simpl. split; [constructor |]. split; [tauto | reflexivity].
  - unfold byte_freq in *. rewrite fold_left_app. simpl.
    destruct IH as (Hnd & Hkeys & Hget). split; [| split].
    + now apply freq_incr_NoDup.
    + intros b. rewrite freq_incr_keys, Hkeys, in_app_iff. simpl. intuition.
    + intros b. rewrite freq_get_incr, Hget, occurrences_snoc. reflexivity.
Qed.

(** ** The entropy detector *)

Section EntropyDetector.
Local Open Scope R_scope.

(** The loop appends, in order, the scores of the samples that open. *)
Lemma entropy_loop_omap w thr sampled : forall scores,
  entropy_loop w thr sampled scores
  = scores ++ map (entropy_sample_score thr) (omap (open_read w) sampled).
Proof.
  induction sampled as [|p rest IH]; intros scores; simpl.
  - now rewrite app_nil_r.
  - destruct (open_read w p) as [content |]; rewrite IH; [| reflexivity].
    now rewrite <- app_assoc.
Qed.

Lemma log2_half : log2 (1 / 2) = -1.
Proof.
  unfold log2. replace (1 / 2) with (/ 2) by lra.
  rewrite ln_Rinv by lra. pose proof ln_2_pos. field. lra.
Qed.

(** Two distinct bytes carry one bit. *)
Lemma entropy_two_distinct_bytes : entropy [x41; x42] = 1.
Proof.
  unfold entropy. simpl.
  change (IZR (Z.of_nat 2)) with 2.
  rewrite log2_half. lra.
Qed.
End EntropyDetector.

(** C8, as the code has it.  The detector samples the first five entries of
    the log, which are its oldest ones; a path that cannot be opened
    contributes nothing; each opened file contributes the entropy of its
    first 4096 bytes divided by [max(0.001, ENTROPY_THRESHOLD)] and capped at
    1; the result is the mean of these scores, and 0 when there is none. *)
Theorem detect_entropy_score_samples_first_five (w : World) (st : State) :
  let sampled := firstn 5 (recent_modified_files st) in
  let thr := ENTROPY_THRESHOLD (runtime_config st) in
  let scores := map (entropy_sample_score thr) (omap (open_read w) sampled) in
  detect_entropy_score w st
  = match scores with
    | [] => 0%R
    | _ => (Rsum scores / INR (length scores))%R
    end.
Proof.
  intros sampled thr scores. unfold detect_entropy_score.
  fold sampled thr. rewrite entropy_loop_omap. reflexivity.
Qed.

(** The claim of C8 as worded fails on a log of six paths of which only the
    newest can be opened: the five most recent include it and would score
    1/2, while the code samples the five oldest and returns 0. *)
Lemma entropy_detector_skips_most_recent_file :
  most_recent 5 (recent_modified_files example_six_files_state)
    <> firstn 5 (recent_modified_files example_six_files_state)
  /\ detect_entropy_score example_world example_six_files_state = 0%R
  /\ detect_entropy_score_most_recent example_world example_six_files_state = (1 / 2)%R
  /\ detect_entropy_score example_world example_six_files_state
     <> detect_entropy_score_most_recent example_world example_six_files_state.
Proof.
  assert (Hcode : detect_entropy_score example_world example_six_files_state = 0%R).
  { unfold detect_entropy_score. rewrite entropy_loop_omap. reflexivity. }
  assert (Hspec : detect_entropy_score_most_recent example_world example_six_files_state
                  = (1 / 2)%R).
  { unfold detect_entropy_score_most_recent. rewrite entropy_loop_omap.
    replace (omap (open_read example_world)
               (most_recent 5 (recent_modified_files example_six_files_state)))
      with [[x41; x42]] by (vm_compute; reflexivity).
    cbn [map app length]. unfold entropy_sample_score.
    change (firstn 4096 [x41; x42]) with [x41; x42].
    rewrite entropy_two_distinct_bytes. simpl ENTROPY_THRESHOLD.
    unfold Rsum. simpl. rewrite Rmax_right by lra. rewrite Rmin_right by lra. lra. }
  split; [vm_compute; discriminate |]. split; [exact Hcode |]. split; [exact Hspec |].
  rewrite Hcode, Hspec. lra.
Qed.

(** ** Snapshot and alert *)

(** What a returning [encrypt_and_store] has done: the artifact holds the
    nonce followed by the ciphertext of the file's contents, under the name
    built from the file's name and the time stamp, and nothing else changed. *)
Lemma encrypt_and_store_returned `{Host} io filepath backup_dir w u w' :
  encrypt_and_store io filepath backup_dir w = (Returned u, w') ->
  exists data ct,
    open_read w filepath = Some data
    /\ aes_encrypt AESGCM_KEY (snap_nonce io) data = Some ct
    /\ w' = with_files
              (<[path_join backup_dir (snapshot_name filepath (snap_stamp io))
                 := snap_nonce io ++ ct]> (files w)) w.
Proof.
  unfold encrypt_and_store.
  destruct (snap_mkdir_ok io); simpl; [| discriminate].
  destruct (open_read w filepath) as [data |] eqn:Hread; [| discriminate].
  destruct (aes_encrypt AESGCM_KEY (snap_nonce io) data) as [ct |] eqn:Henc; [| discriminate].
  intros Hw. exists data, ct. split; [reflexivity |]. split; [exact Henc |].
  destruct (snap_write io); simpl in Hw; inversion Hw; reflexivity.
Qed.

Lemma snapshot_loop_spec `{Host} ios ps : forall i snap_list w,
  exists dests,
    snapshot_step_spec ios i ps w dests (snd (snapshot_loop ios i ps snap_list w))
    /\ fst (snapshot_loop ios i ps snap_list w)
       = snap_list ++ map (fun _ => "None"%string) dests.
Proof.
  induction ps as [|p rest IH]; intros i snap_list w; cbn [snapshot_loop].
  - exists []. split; [constructor | now rewrite app_nil_r].
  - destruct (encrypt_and_store (ios i) p BACKUP_DIR w) as [[u |] w1] eqn:Hcall.
    + destruct (encrypt_and_store_returned _ _ _ _ _ _ Hcall) as (data & ct & Hread & Henc & ->).
      destruct (IH (S i) (snap_list ++ [str_of_None u])
                   (with_files
                      (<[path_join BACKUP_DIR (snapshot_name p (snap_stamp (ios i)))
                         := snap_nonce (ios i) ++ ct]> (files w)) w))
        as (dests & Hspec & Hlist).
      eexists (_ :: dests). split.
      * eapply snapshot_step_stored; eauto.
      * rewrite Hlist, <- app_assoc. reflexivity.
    + destruct (IH (S i) snap_list w1) as (dests & Hspec & Hlist).
      exists dests. split; [| exact Hlist].
      eapply snapshot_step_skipped; eauto.
Qed.


(** Each entry of the alert's snapshot list is the text ["None"]: the loop
    stores [str(dest)] where [dest] is the value of [encrypt_and_store], which
    returns nothing. *)
Lemma alert_snapshots_are_None `{Host} io confidence detectors st w :
  Forall (fun s => s = "None"%string)
         (alert_snapshots (fst (snapshot_and_alert io confidence detectors st w))).
Proof.
  unfold snapshot_and_alert, snapshot_targets.
  destruct (snapshot_loop_spec (act_snapshot io) (firstn 20 (recent_modified_files st)) 0 [] w)
    as (dests & _ & Hlist).
  destruct (snapshot_loop _ _ _ _ _) as [snap_list w1]. simpl in *. subst snap_list.
  apply List.Forall_forall. intros s Hs. apply in_map_iff in Hs.
  now destruct Hs as (? & <- & _).
Qed.

(** On a log holding one readable file, with every step succeeding, the
    artifact is written under [demo_backups/a.txt.1700000000.enc] and holds
    the nonce followed by the ciphertext, while the alert's snapshot list is
    [["None"]]. *)
Lemma alert_lists_None_for_stored_snapshot :
  let result := @snapshot_and_alert example_host example_action_io 1%R []
                  example_one_file_state example_world in
  alert_snapshots (fst result) = ["None"%string]
  /\ files (snd result)
       !! ["srv"; "agent"; "demo_backups"; "a.txt.1700000000.enc"]%string
     = Some (repeat x07 12 ++ [x41; x42] ++ repeat xff 16).
Proof. split; vm_compute; reflexivity. Qed.


(** ** The [/set_rates] endpoint *)

Lemma lookup_key_name k key : lookup_key k = Some key -> key_name key = k.
Proof.
  unfold lookup_key. intros Hfind. apply find_some in Hfind.
  destruct Hfind as (_ & Heq). now apply String.eqb_eq in Heq.
Qed.

Lemma coerce_same_type `{Builtins} c c' key v : coerce c key v = coerce c' key v.
Proof. destruct key; reflexivity. Qed.

Lemma cfg_get_set_same `{Builtins} c key v x :
  coerce c key v = Some x -> cfg_get (cfg_set c key x) key = x.
Proof.
  unfold coerce. destruct key; simpl.
  all: destruct (py_int v) as [z |], (py_float v) as [r |].
  all: simpl; intros Hx; inversion Hx; reflexivity.
Qed.

Lemma cfg_get_set_other c key x key' :
  key <> key' -> cfg_get (cfg_set c key x) key' = cfg_get c key'.
Proof. intros Hne. destruct key, x, key'; simpl; try reflexivity; congruence. Qed.

(** The loop of [set_rates]: either every item was accepted and applied in
    order, or the loop stopped at the first rejected item, after applying the
    items before it and none after. *)
Lemma set_rates_loop_spec `{Builtins} items : forall c updated,
  let '(error, c', updated') := set_rates_loop items c updated in
  (forall key, ~ In (key_name key) (map fst items) -> cfg_get c' key = cfg_get c key)
  /\ ((forall k x, updated !! k = Some x ->
         exists key, lookup_key k = Some key /\ cfg_get c key = x) ->
      forall k x, updated' !! k = Some x ->
         exists key, lookup_key k = Some key /\ cfg_get c' key = x)
  /\ match error with
     | None =>
         Forall (item_accepted c) items
         /\ dom updated' = dom updated ∪ list_to_set (map fst items)
     | Some msg =>
         exists pre item post,
           items = pre ++ item :: post
           /\ set_rates_loop pre c updated = (None, c', updated')
           /\ item_rejected c item msg
     end.
Proof.
  induction items as [|[k v] rest IH]; intros c updated; cbn [set_rates_loop].
  - split; [reflexivity |]. split; [auto |]. split; [constructor |].
    simpl. now rewrite (right_id_L ∅ (∪)).
  - destruct (lookup_key k) as [key |] eqn:Hkey.
    + destruct (coerce c key v) as [x |] eqn:Hco.
      * specialize (IH (cfg_set c key x) (<[k := cfg_get (cfg_set c key x) key]> updated)).
        destruct (set_rates_loop rest _ _) as [[error c'] updated'].
        destruct IH as (Hframe & Hinv & Hres).
        pose proof (lookup_key_name _ _ Hkey) as Hname.
        split; [| split].
        -- intros key' Hnot. simpl in Hnot. rewrite Hframe by tauto.
           apply cfg_get_set_other. intros ->. apply Hnot. left. congruence.
        -- intros Hupd. apply Hinv. intros k' x' Hk'.
           destruct (decide (k = k')) as [<- | Hne].
           ++ rewrite lookup_insert_eq in Hk'. inversion Hk'; subst. eauto.
           ++ rewrite lookup_insert_ne in Hk' by exact Hne.
              destruct (Hupd _ _ Hk') as (key' & Hkey' & Hget).
              exists key'. split; [exact Hkey' |].
              rewrite cfg_get_set_other; [exact Hget |].
              intros ->. apply lookup_key_name in Hkey'. congruence.
        -- destruct error as [msg |].
           ++ destruct Hres as (pre & item & post & -> & Hpre & Hrej).
              exists ((k, v) :: pre), item, post. split; [reflexivity |]. split.
              ** cbn [set_rates_loop]. now rewrite Hkey, Hco.
              ** destruct Hrej as [Hunk | (key' & Hk' & Hc' & Hmsg)]; [now left |].
                 right. exists key'. split; [exact Hk' |]. split; [| exact Hmsg].
                 now rewrite (coerce_same_type c (cfg_set c key x)).
           ++ destruct Hres as (Hall & Hdom). split.
              ** constructor; [exists key, x; auto |].
                 eapply Forall_impl; [exact Hall |].
                 intros item (key' & x' & Hk' & Hc'). exists key', x'.
                 split; [exact Hk' |]. now rewrite (coerce_same_type c (cfg_set c key x)).
              ** rewrite Hdom, dom_insert_L. simpl.
                 rewrite (comm_L (∪) {[k]} (dom updated)).
                 now rewrite <- (assoc_L (∪)).
      * split; [reflexivity |]. split; [auto |].
        exists [], (k, v), rest. split; [reflexivity |]. split; [reflexivity |].
        right. exists key. auto.
    + split; [reflexivity |]. split; [auto |].
      exists [], (k, v), rest. split; [reflexivity |]. split; [reflexivity |].
      left. auto.
Qed.






(** ** One evaluation cycle *)

(** What [compute_confidence] leaves of the state: everything but the two
    counters, which keep their window and every event not older than the
    cutoffs of the [count()] calls. *)
Lemma compute_confidence_frame `{Host} ck w st :
  let st' := snd (compute_confidence ck w st) in
  runtime_config st' = runtime_config st
  /\ bytes_written_window st' = bytes_written_window st
  /\ recent_modified_files st' = recent_modified_files st
  /\ proc_writes st' = proc_writes st
  /\ window (file_mod_counter st') = window (file_mod_counter st)
  /\ window (rename_counter st') = window (rename_counter st)
  /\ (forall t, In t (events (file_mod_counter st)) ->
        ck_file_rate ck - window (file_mod_counter st) <= t ->
        ck_ml_file_rate ck - window (file_mod_counter st) <= t ->
        In t (events (file_mod_counter st')))
  /\ (forall t, In t (events (rename_counter st)) ->
        ck_rename ck - window (rename_counter st) <= t ->
        ck_ml_rename ck - window (rename_counter st) <= t ->
        In t (events (rename_counter st'))).
Proof.
  unfold compute_confidence, detect_file_rate_score, detect_rename_score,
    detect_ml_score, count. simpl.
  destruct (ml_model st) as [decision_function |]; simpl.
  - destruct ML_AVAILABLE; simpl; repeat split; auto;
      intros t Hin Hc1 Hc2; repeat apply popleft_while_keeps; auto.
  - repeat split; auto; intros t Hin Hc1 Hc2; now apply popleft_while_keeps.
Qed.

(** C7. In one evaluation cycle, when the confidence reaches the action
    threshold exactly one alert is broadcast, the one built by
    [snapshot_and_alert]; the recent-file log is then empty and both counters
    are as [compute_confidence] left them, with their window and every event
    not older than the cutoffs.  When the confidence is below the action
    threshold, whether or not it reaches the warn threshold, no alert is
    broadcast and the log and the file system are unchanged. *)
Theorem agent_cycle_alert_and_log `{Host}
    (ck : eval_clock) (io : action_io) (st : State) (w : World) :
  let confidence := fst (fst (compute_confidence ck w st)) in
  let detectors := snd (fst (compute_confidence ck w st)) in
  let st1 := snd (compute_confidence ck w st) in
  let threshold := CONFIDENCE_ACTION_THRESHOLD (runtime_config st) in
  let alerts := fst (fst (agent_cycle ck io st w)) in
  let st' := snd (fst (agent_cycle ck io st w)) in
  let w' := snd (agent_cycle ck io st w) in
  ((threshold <= confidence)%R ->
     alerts = [fst (snapshot_and_alert io confidence detectors st1 w)]
     /\ length alerts = 1%nat
     /\ recent_modified_files st' = []
     /\ file_mod_counter st' = file_mod_counter st1
     /\ rename_counter st' = rename_counter st1
     /\ (forall t, In t (events (file_mod_counter st)) ->
           ck_file_rate ck - window (file_mod_counter st) <= t ->
           ck_ml_file_rate ck - window (file_mod_counter st) <= t ->
           In t (events (file_mod_counter st')))
     /\ (forall t, In t (events (rename_counter st)) ->
           ck_rename ck - window (rename_counter st) <= t ->
           ck_ml_rename ck - window (rename_counter st) <= t ->
           In t (events (rename_counter st'))))
  /\ ((confidence < threshold)%R ->
        alerts = []
        /\ recent_modified_files st' = recent_modified_files st
        /\ st' = st1
        /\ w' = w).
Proof.
  intros confidence detectors st1 threshold alerts st' w'.
  pose proof (compute_confidence_frame ck w st) as Hframe. fold st1 in Hframe.
  destruct Hframe as (Hcfg & _ & Hrecent & _ & _ & _ & Hfile & Hrename).
  subst alerts st' w'. unfold agent_cycle.
  subst confidence detectors st1 threshold.
  destruct (compute_confidence ck w st) as [[confidence detectors] st1]. simpl in *.
  rewrite Hcfg.
  destruct (Rle_dec (CONFIDENCE_ACTION_THRESHOLD (runtime_config st)) confidence)
    as [Hge | Hlt].
  - destruct (snapshot_and_alert io confidence detectors st1 w) as [alert w1]. simpl.
    split; [| intros Hbelow; lra].
    intros _. repeat split; auto.
  - split; [intros Hge; contradiction |].
    intros _. repeat split; auto.
Qed.

(** C7 at two concrete states: with the action threshold at 0 the cycle
    broadcasts one alert and empties the log; with the threshold at 2 it
    broadcasts nothing and keeps the log. *)
Lemma agent_cycle_alert_and_log_witness :
  (let st := example_threshold_state 0 in
   let result := @agent_cycle example_host example_eval_clock example_action_io st
                   example_world in
   (CONFIDENCE_ACTION_THRESHOLD (runtime_config st)
    <= fst (fst (@compute_confidence example_host example_eval_clock example_world st)))%R
   /\ length (fst (fst result)) = 1%nat
   /\ recent_modified_files st = [example_file]
   /\ recent_modified_files (snd (fst result)) = [])
  /\ (let st := example_threshold_state 2 in
      let result := @agent_cycle example_host example_eval_clock example_action_io st
                      example_world in
      (fst (fst (@compute_confidence example_host example_eval_clock example_world st))
       < CONFIDENCE_ACTION_THRESHOLD (runtime_config st))%R
      /\ fst (fst result) = []
      /\ recent_modified_files (snd (fst result)) = [example_file]).
Proof.
  assert (Hsizes : forall thr, sizes_nonneg (example_threshold_state thr)).
  { intros thr. unfold sizes_nonneg.
    replace (bytes_written_window (example_threshold_state thr)) with [(1000002, 2)]
      by (vm_compute; reflexivity).
    repeat constructor. simpl. lia. }
  split.
  - intros st result.
    destruct (@compute_confidence_unit example_host example_eval_clock example_world st
                (Hsizes 0%R)) as (_ & Hlo & _).
    assert (Hge : (CONFIDENCE_ACTION_THRESHOLD (runtime_config st)
                   <= fst (fst (@compute_confidence example_host example_eval_clock
                                  example_world st)))%R) by exact Hlo.
    destruct (@agent_cycle_alert_and_log example_host example_eval_clock example_action_io
                st example_world) as (Hfire & _).
    destruct (Hfire Hge) as (_ & Hone & Hcleared & _).
    split; [exact Hge |]. split; [exact Hone |]. split; [reflexivity | exact Hcleared].
  - intros st result.
    destruct (@compute_confidence_unit example_host example_eval_clock example_world st
                (Hsizes 2%R)) as (_ & _ & Hhi).
    assert (Hlt : (fst (fst (@compute_confidence example_host example_eval_clock
                               example_world st))
                   < CONFIDENCE_ACTION_THRESHOLD (runtime_config st))%R).
    { change (CONFIDENCE_ACTION_THRESHOLD (runtime_config st)) with 2%R. lra. }
    destruct (@agent_cycle_alert_and_log example_host example_eval_clock example_action_io
                st example_world) as (_ & Hquiet).
    destruct (Hquiet Hlt) as (Hnone & Hkept & _).
    split; [exact Hlt |]. split; [exact Hnone |].
    unfold result. rewrite Hkept. reflexivity.
Defined.

(** ** URL scanner *)





(* ===================================================================== *)
(** * Further properties of the code *)

(** ** Padding and labelling of the balanced sample ([detection3.py]) *)

Lemma concat_repeat_length {A : Type} (df : list A) r :
  length (concat (repeat df r)) = (r * length df)%nat.
Proof. induction r as [|r IH]; simpl; [reflexivity |]. rewrite length_app, IH. lia. Qed.

Lemma concat_repeat_lookup {A : Type} (df : list A) r : forall i,
  (i < r * length df)%nat ->
  concat (repeat df r) !! i = df !! (i mod length df)%nat.
Proof.
  induction r as [|r IH]; intros i Hi; simpl in *; [lia |].
  destruct (Nat.lt_ge_cases i (length df)) as [Hlt | Hge].
  - rewrite lookup_app_l by exact Hlt. now rewrite Nat.mod_small.
  - rewrite lookup_app_r by exact Hge. rewrite IH by lia.
    f_equal. replace i with ((i - length df) + 1 * length df)%nat at 2 by lia.
    now rewrite Nat.Div0.mod_add.
Qed.

Lemma ceil_div_covers k n : (0 < n)%nat -> (k <= (k + n - 1) / n * n)%nat.
Proof.
  intros Hn. pose proof (Nat.div_mod_eq (k + n - 1) n) as Hdm.
  pose proof (Nat.mod_upper_bound (k + n - 1) n ltac:(lia)) as Hrem. nia.
Qed.

Lemma pad_to_k_length {A : Type} (dummy : A) df k rows :
  pad_to_k dummy df k = Some rows -> length rows = k.
Proof.
  unfold pad_to_k. destruct (length df) as [|n'] eqn:Hlen.
  - destruct k; [discriminate |]. intros Hp; inversion Hp.
    apply (repeat_length dummy (S k)).
  - destruct (Nat.leb_spec k (S n')) as [Hle | Hgt]; intros [= <-].
    + rewrite length_firstn. lia.
    + rewrite length_firstn, concat_repeat_length, Hlen.
      change (fst (Nat.divmod (k + S n' - 1) n' 0 n')) with ((k + S n' - 1) / S n')%nat.
      pose proof (ceil_div_covers k (S n') ltac:(lia)). lia.
Qed.

Lemma pad_to_k_returns {A : Type} (dummy : A) df k :
  (0 < k)%nat -> exists rows, pad_to_k dummy df k = Some rows.
Proof.
  intros Hk. unfold pad_to_k. destruct (length df).
  - destruct k; [lia | eauto].
  - destruct (k <=? S n)%nat; eauto.
Qed.

(** X1. [pad_to_k] raises only on an empty frame with [k = 0].  Otherwise it
    returns exactly [k] rows: [k] dummy rows for an empty frame, and for a
    frame of [n > 0] rows the rows of the frame repeated cyclically, row [i]
    of the result being row [i mod n] of the frame. *)
Theorem pad_to_k_cyclic {A : Type} (dummy : A) (df : list A) (k : nat) :
  (pad_to_k dummy df k = None <-> df = [] /\ k = O)
  /\ (forall rows, pad_to_k dummy df k = Some rows ->
        length rows = k
        /\ (df = [] -> rows = repeat dummy k)
        /\ (df <> [] -> forall i, (i < k)%nat ->
              rows !! i = df !! (i mod length df)%nat)).
Proof.
  split.
  - unfold pad_to_k. destruct df as [|x df]; simpl.
    + destruct k; [tauto |]. split; [discriminate | intros (_ & Hk); discriminate].
    + destruct (k <=? S (length df))%nat; split; try discriminate;
        intros (Hnil & _); discriminate.
  - intros rows Hp. split; [eapply pad_to_k_length; eauto |]. split.
    + intros ->. simpl in Hp. destruct k; [discriminate |]. now inversion Hp.
    + intros Hne i Hi. unfold pad_to_k in Hp.
      destruct (length df) as [|n'] eqn:Hlen.
      { destruct df; [congruence | discriminate]. }
      destruct (Nat.leb_spec k (S n')) as [Hle | Hgt]; injection Hp as <-.
      * rewrite lookup_take_lt by exact Hi. now rewrite Nat.mod_small by lia.
      * rewrite lookup_take_lt by exact Hi.
        rewrite concat_repeat_lookup; [now rewrite Hlen |].
        rewrite Hlen.
        change (fst (Nat.divmod (k + S n' - 1) n' 0 n')) with ((k + S n' - 1) / S n')%nat.
        pose proof (ceil_div_covers k (S n') ltac:(lia)). lia.
Qed.

(** X1 at a concrete frame: two rows padded to five. *)
Lemma pad_to_k_cyclic_witness :
  pad_to_k 0%nat [7; 8]%nat 5 = Some [7; 8; 7; 8; 7]%nat
  /\ [7; 8; 7; 8; 7]%nat !! 4%nat = [7; 8]%nat !! (4 mod 2)%nat.
Proof.
  assert (Hp : pad_to_k 0%nat [7; 8]%nat 5 = Some [7; 8; 7; 8; 7]%nat) by reflexivity.
  split; [exact Hp |].
  destruct (pad_to_k_cyclic 0%nat [7; 8]%nat 5) as (_ & Hrows).
  destruct (Hrows _ Hp) as (_ & _ & Hcyc).
  apply Hcyc; [discriminate | simpl; lia].
Defined.

(** X2. Whatever rows the sampling left in the two classes, the labelled
    frame built before the shuffle holds exactly [PER_CLASS_REQ] rows
    labelled [BENIGN] followed by [PER_CLASS_REQ] rows labelled
    [MALICIOUS]: the two labels are always tied. *)
Theorem label_and_concat_balanced {A : Type} (dummy : A) (sampled_benign sampled_mal : list A) :
  exists combined,
    label_and_concat dummy sampled_benign sampled_mal = Some combined
    /\ map snd combined
       = repeat "BENIGN"%string PER_CLASS_REQ ++ repeat "MALICIOUS"%string PER_CLASS_REQ
    /\ length combined = (2 * PER_CLASS_REQ)%nat.
Proof.
  unfold label_and_concat.
  assert (Hk : (0 < PER_CLASS_REQ)%nat) by (unfold PER_CLASS_REQ; lia).
  destruct (pad_to_k_returns dummy sampled_benign PER_CLASS_REQ Hk) as (b & Hb).
  destruct (pad_to_k_returns dummy sampled_mal PER_CLASS_REQ Hk) as (m & Hm).
  rewrite Hb, Hm. apply pad_to_k_length in Hb. apply pad_to_k_length in Hm.
  eexists. split; [reflexivity |].
  assert (Hlabel : forall (l : list A) (s : string),
            map snd (map (fun row => (row, s)) l) = repeat s (length l)).
  { intros l s. induction l as [|x l IH]; simpl; [reflexivity | now rewrite IH]. }
  split.
  - rewrite map_app, !Hlabel, Hb, Hm. reflexivity.
  - rewrite length_app, !length_map, Hb, Hm. lia.
Qed.

(** ** Feature rows of the URL scanner ([detection3.py]) *)

(** The all-zero row over the columns [cols]. *)
Lemma zero_dict_lookup (cols : list string) c :
  default 0%R ((list_to_map (map (fun name => (name, 0%R)) cols) : gmap string R) !! c)
  = 0%R.
Proof.
  induction cols as [|x cols IH]; simpl; [now rewrite lookup_empty |].
  destruct (decide (x = c)) as [-> | Hne].
  - now rewrite lookup_insert_eq.
  - now rewrite lookup_insert_ne.
Qed.

Lemma zero_dict_missing (cols : list string) k :
  existsb (String.eqb k) cols = false ->
  (list_to_map (map (fun name => (name, 0%R)) cols) : gmap string R) !! k = None.
Proof.
  induction cols as [|x cols IH]; simpl; intros Hk; [apply lookup_empty |].
  apply orb_false_iff in Hk. destruct Hk as (Hx & Hrest).
  rewrite lookup_insert_ne; [now apply IH |].
  intros ->. rewrite String.eqb_refl in Hx. discriminate.
Qed.

Lemma feat_keys_not_expected f :
  forallb (fun kv => negb (existsb (String.eqb (fst kv)) expected_features)) (feat_items f)
  = true.
Proof. vm_compute. reflexivity. Qed.

(** A dictionary that has none of the keys of [items] is left as it is by the
    update loop. *)
Lemma feature_update_skips (items : list (string * R)) : forall d : gmap string R,
  Forall (fun kv => d !! fst kv = None) items ->
  fold_left (fun d kv => if bool_decide (is_Some (d !! fst kv))
                         then <[fst kv := snd kv]> d else d) items d = d.
Proof.
  induction items as [|kv items IH]; intros d Hall; simpl; [reflexivity |].
  inversion Hall as [|? ? Hkv Hrest]; subst.
  rewrite bool_decide_eq_false_2; [now apply IH |].
  rewrite Hkv. now intros [? ?].
Qed.

Lemma url_features_zero_row f :
  url_to_features_deterministic f expected_features
  = map (fun c => (c, 0%R)) expected_features.
Proof.
  unfold url_to_features_deterministic.
  rewrite feature_update_skips.
  - apply map_ext. intros c. now rewrite zero_dict_lookup.
  - pose proof (feat_keys_not_expected f) as Hkeys.
    rewrite forallb_forall in Hkeys. apply List.Forall_forall. intros kv Hin.
    apply zero_dict_missing. specialize (Hkeys kv Hin).
    now apply negb_true_iff in Hkeys.
Qed.

(** X3. With the manual feature list, [url_to_features_deterministic] builds
    the same row for every URL: no key of its [feat] dictionary is a column
    of the list, so each of the 133 columns keeps the value 0. *)
Theorem url_features_ignore_the_url (f : url_feat_values) :
  url_to_features_deterministic f expected_features
  = map (fun c => (c, 0%R)) expected_features
  /\ length (url_to_features_deterministic f expected_features) = 133%nat
  /\ Forall (fun kv => snd kv = 0%R) (url_to_features_deterministic f expected_features).
Proof.
  rewrite url_features_zero_row. split; [reflexivity |]. split.
  - rewrite length_map. reflexivity.
  - apply List.Forall_forall. intros kv Hin. apply in_map_iff in Hin.
    now destruct Hin as (c & <- & _).
Qed.

Lemma has_column_zero_row c (cols : list string) :
  has_column c (map (fun name => (name, 0%R)) cols) = existsb (fun name => String.eqb name c) cols.
Proof.
  unfold has_column. induction cols as [|x cols IH]; simpl; [reflexivity |].
  now rewrite IH.
Qed.

Lemma synthesize_row_without_columns base i :
  has_column "hostname_entropy" base = false ->
  has_column "num_digits_host" base = false ->
  has_column "tld_suspicious" base = false ->
  has_column "uses_https" base = false ->
  has_column "num_path_segments" base = false ->
  synthesize_row base i = base.
Proof.
  intros H1 H2 H3 H4 H5. unfold synthesize_row.
  rewrite H1. cbv zeta. rewrite H2, H3, H4, H5. reflexivity.
Qed.

(** X4. With the manual feature list, every row synthesized by
    [synthesize_variants_from_base] equals the base row, which is all zero:
    none of the five columns the loop perturbs is a column of the list. *)
Theorem synthesized_variants_are_the_base_row (f : url_feat_values) (n : nat) :
  synthesize_variants_from_base f expected_features n
  = repeat (map (fun c => (c, 0%R)) expected_features) n.
Proof.
  unfold synthesize_variants_from_base. rewrite url_features_zero_row.
  assert (Hrow : forall i, synthesize_row (map (fun c => (c, 0%R)) expected_features) i
                           = map (fun c => (c, 0%R)) expected_features).
  { intros i. apply synthesize_row_without_columns; rewrite has_column_zero_row;
      vm_compute; reflexivity. }
  generalize 0%nat. induction n as [|n IH]; intros start; simpl; [reflexivity |].
  now rewrite Hrow, IH.
Qed.

(** ** Bounds of [entropy] *)

Lemma byte_to_nat_inj x y : Byte.to_nat x = Byte.to_nat y -> x = y.
Proof.
  intros Heq. pose proof (Byte.of_to_nat x) as Hx. rewrite Heq, Byte.of_to_nat in Hx.
  now inversion Hx.
Qed.

Lemma NoDup_bytes_length (l : list byte) : List.NoDup l -> (length l <= 256)%nat.
Proof.
  intros Hnd.
  assert (Hmap : List.NoDup (map Byte.to_nat l)).
  { induction Hnd as [|x l Hx Hnd IH]; simpl; constructor; [| exact IH].
    intros Hin. apply in_map_iff in Hin. destruct Hin as (y & Hy & Hin).
    apply byte_to_nat_inj in Hy. now subst. }
  assert (Hincl : incl (map Byte.to_nat l) (seq 0 256)).
  { intros n Hin. apply in_map_iff in Hin. destruct Hin as (x & <- & _).
    apply in_seq. pose proof (Byte.to_nat_bounded x). lia. }
  pose proof (NoDup_incl_length Hmap Hincl) as Hlen.
  rewrite length_map, length_seq in Hlen. exact Hlen.
Qed.

Section EntropyBounds.
Local Open Scope R_scope.

Lemma ln_le_minus_1 y : 0 < y -> ln y <= y - 1.
Proof.
  intros Hy. pose proof (exp_ineq1_le (ln y)) as H. rewrite exp_ln in H by exact Hy. lra.
Qed.

(** One term of the entropy against the uniform distribution over [K]
    values (Gibbs' inequality, term by term). *)
Lemma plogp_gibbs p K :
  0 < p -> 0 < K -> - (p * log2 p) <= p * log2 K + (/ K - p) / ln 2.
Proof.
  intros Hp HK. unfold log2. pose proof ln_2_pos as H2.
  assert (Hy : 0 < / (K * p)) by (apply Rinv_0_lt_compat; nra).
  pose proof (ln_le_minus_1 _ Hy) as Hln.
  rewrite ln_Rinv in Hln by nra. rewrite ln_mult in Hln by assumption.
  assert (Hmul : - (p * ln p) <= p * ln K + (/ K - p)).
  { assert (Hprod : p * (- ln K - ln p) <= p * (/ (K * p) - 1)).
    { apply Rmult_le_compat_l; lra. }
    replace (p * (/ (K * p) - 1)) with (/ K - p) in Hprod by (field; lra). lra. }
  replace (p * (ln K / ln 2) + (/ K - p) / ln 2) with ((p * ln K + (/ K - p)) / ln 2)
    by (field; lra).
  replace (- (p * (ln p / ln 2))) with ((- (p * ln p)) / ln 2) by (field; lra).
  apply Rmult_le_compat_r; [| exact Hmul]. left. now apply Rinv_0_lt_compat.
Qed.

Lemma entropy_fold_gibbs (n : Z) (K : R) (vs : list Z) : forall acc,
  (0 < n)%Z -> 0 < K -> (forall v, In v vs -> (1 <= v)%Z) ->
  fold_left (fun ent v => let p := IZR v / IZR n in ent - p * log2 p) vs acc
  <= acc + IZR (fold_right Z.add 0%Z vs) / IZR n * log2 K
     + (INR (length vs) / K - IZR (fold_right Z.add 0%Z vs) / IZR n) / ln 2.
Proof.
  induction vs as [|v vs IH]; intros acc Hn HK Hvs.
  - simpl. unfold Rdiv. rewrite !Rmult_0_l. lra.
  - cbn [fold_left fold_right length]. rewrite S_INR, plus_IZR.
    assert (Hv : (1 <= v)%Z) by (apply Hvs; now left).
    assert (HN : 0 < IZR n) by (apply IZR_lt; lia).
    assert (Hp : 0 < IZR v / IZR n).
    { apply Rdiv_lt_0_compat; [apply IZR_lt; lia | exact HN]. }
    pose proof (plogp_gibbs _ _ Hp HK) as Hterm.
    pose proof ln_2_pos as H2.
    eapply Rle_trans; [apply IH; auto; intros u Hu; apply Hvs; now right |].
    cbv zeta.
    replace ((IZR v + IZR (fold_right Z.add 0%Z vs)) / IZR n)
      with (IZR v / IZR n + IZR (fold_right Z.add 0%Z vs) / IZR n) by (field; lra).
    replace ((INR (length vs) + 1) / K) with (INR (length vs) / K + / K) by (field; lra).
    set (S := IZR (fold_right Z.add 0%Z vs) / IZR n) in *.
    set (p := IZR v / IZR n) in *.
    replace ((INR (length vs) / K + / K - (p + S)) / ln 2)
      with ((INR (length vs) / K - S) / ln 2 + (/ K - p) / ln 2) by (field; lra).
    lra.
Qed.

Lemma freq_total_sum freq : freq_total freq = fold_right Z.add 0%Z (map snd freq).
Proof. induction freq as [|[b n] rest IH]; simpl; [reflexivity | now rewrite IH]. Qed.

Lemma log2_le_8 K : 0 < K <= 256 -> log2 K <= 8.
Proof.
  intros (HK0 & HK). unfold log2. pose proof ln_2_pos as H2.
  assert (H256 : ln 256 = 8 * ln 2).
  { replace 256 with (2 ^ 8) by (simpl; lra). rewrite ln_pow by lra. simpl. lra. }
  assert (Hln : ln K <= ln 256).
  { destruct HK as [Hlt | ->]; [left; now apply ln_increasing | lra]. }
  apply (Rmult_le_reg_r (ln 2)); [exact H2 |].
  unfold Rdiv. rewrite Rmult_assoc, Rinv_l by lra. lra.
Qed.

Lemma entropy_le_8 data : entropy data <= 8.
Proof.
  unfold entropy. destruct data as [|b0 data0] eqn:Hdata; [lra |].
  rewrite <- Hdata. set (vs := map snd (byte_freq data)).
  assert (Hlen : (0 < Z.of_nat (length data))%Z) by (subst data; simpl; lia).
  destruct (byte_freq_histogram data) as (Hnd & Hkeys & _).
  assert (Hk : (length vs <= 256)%nat).
  { unfold vs. rewrite length_map, <- (length_map fst). now apply NoDup_bytes_length. }
  assert (Hk0 : (0 < length vs)%nat).
  { unfold vs. rewrite length_map, <- (length_map fst).
    assert (Hin : In b0 (map fst (byte_freq data))) by (apply Hkeys; subst data; now left).
    destruct (map fst (byte_freq data)); [contradiction | simpl; lia]. }
  destruct (byte_freq_fold data [] (List.Forall_nil _)) as (Hpos & Htot). simpl in Htot.
  assert (Hvs : forall v, In v vs -> (1 <= v)%Z).
  { intros v Hv. now apply byte_freq_counts in Hv. }
  assert (HK : 0 < INR (length vs)) by (apply lt_0_INR; lia).
  pose proof (entropy_fold_gibbs (Z.of_nat (length data)) (INR (length vs)) vs 0
                Hlen HK Hvs) as Hgibbs.
  assert (Hsum : fold_right Z.add 0%Z vs = Z.of_nat (length data)).
  { unfold vs. rewrite <- freq_total_sum. exact Htot. }
  rewrite Hsum in Hgibbs.
  assert (HN : 0 < IZR (Z.of_nat (length data))) by (apply IZR_lt; lia).
  replace (IZR (Z.of_nat (length data)) / IZR (Z.of_nat (length data))) with 1
    in Hgibbs by (field; lra).
  replace (INR (length vs) / INR (length vs)) with 1 in Hgibbs by (field; lra).
  assert (H8 : log2 (INR (length vs)) <= 8).
  { apply log2_le_8. split; [exact HK |].
    replace 256 with (INR 256) by (rewrite INR_IZR_INZ; reflexivity).
    now apply le_INR. }
  pose proof ln_2_pos.
  replace ((1 - 1) / ln 2) with 0 in Hgibbs by (field; lra). lra.
Qed.

Lemma byte_freq_repeat b n : forall m,
  fold_left (fun freq x => freq_incr x freq) (repeat b n) [(b, m)]
  = [(b, (m + Z.of_nat n)%Z)].
Proof.
  induction n as [|n IH]; intros m; simpl.
  - now rewrite Z.add_0_r.
  - rewrite byte_eqb_refl, IH. do 2 f_equal. lia.
Qed.

Lemma entropy_repeat b n : entropy (repeat b n) = 0.
Proof.
  destruct n as [|n]; [reflexivity |].
  unfold entropy, byte_freq. change (repeat b (S n)) with (b :: repeat b n).
  cbn [fold_left freq_incr]. rewrite byte_freq_repeat. cbn [map snd fold_left length].
  rewrite repeat_length.
  replace (1 + Z.of_nat n)%Z with (Z.of_nat (S n)) by lia.
  assert (HN : 0 < IZR (Z.of_nat (S n))) by (apply IZR_lt; lia).
  cbv zeta. replace (IZR (Z.of_nat (S n)) / IZR (Z.of_nat (S n))) with 1 by (field; lra).
  unfold log2. rewrite ln_1. lra.
Qed.
End EntropyBounds.

(** X5. The entropy of any byte string lies between 0 and 8 bits, and a
    string that repeats one byte has entropy 0. *)
Theorem entropy_between_0_and_8 (data : list byte) :
  (0 <= entropy data <= 8)%R
  /\ (forall b n, data = repeat b n -> entropy data = 0%R).
Proof.
  split; [split; [apply entropy_nonneg | apply entropy_le_8] |].
  intros b n ->. apply entropy_repeat.
Qed.

(** X5 at a concrete string. *)
Lemma entropy_between_0_and_8_witness :
  [x41; x41; x41] = repeat x41 3 /\ entropy [x41; x41; x41] = 0%R.
Proof.
  split; [reflexivity |].
  destruct (entropy_between_0_and_8 [x41; x41; x41]) as (_ & Hconst).
  now apply (Hconst x41 3%nat).
Defined.

Section EntropyCeiling.
Local Open Scope R_scope.

Lemma fold_Rplus_upper c xs : forall acc,
  Forall (fun x => x <= c) xs -> fold_left Rplus xs acc <= acc + INR (length xs) * c.
Proof.
  induction xs as [|x xs IH]; intros acc Hall.
  - simpl. lra.
  - inversion Hall as [|? ? Hx Hxs]; subst. specialize (IH (acc + x) Hxs).
    change (fold_left Rplus (x :: xs) acc) with (fold_left Rplus xs (acc + x)).
    rewrite length_cons, S_INR. lra.
Qed.

Lemma entropy_sample_score_ceiling thr content :
  8 < thr -> entropy_sample_score thr content <= 8 / thr.
Proof.
  intros Hthr. unfold entropy_sample_score.
  rewrite Rmax_right by lra.
  eapply Rle_trans; [apply Rmin_r |].
  apply Rmult_le_compat_r; [left; apply Rinv_0_lt_compat; lra | apply entropy_le_8].
Qed.
End EntropyCeiling.

(** X6. With [ENTROPY_THRESHOLD] above 8 the entropy detector stays below 1
    whatever the files hold: its score is at most [8 / ENTROPY_THRESHOLD]. *)
Theorem entropy_detector_ceiling (w : World) (st : State) :
  (8 < ENTROPY_THRESHOLD (runtime_config st))%R ->
  (detect_entropy_score w st <= 8 / ENTROPY_THRESHOLD (runtime_config st))%R
  /\ (detect_entropy_score w st < 1)%R.
Proof.
  intros Hthr. set (thr := ENTROPY_THRESHOLD (runtime_config st)) in *.
  assert (Hc : (0 < 8 / thr < 1)%R).
  { split; [apply Rdiv_lt_0_compat; lra |].
    apply (Rmult_lt_reg_r thr); [lra |]. unfold Rdiv.
    rewrite Rmult_assoc, Rinv_l by lra. lra. }
  assert (Hle : (detect_entropy_score w st <= 8 / thr)%R).
  { unfold detect_entropy_score. fold thr. rewrite entropy_loop_omap. cbn [app].
    set (scores := map (entropy_sample_score thr)
                       (omap (open_read w) (firstn 5 (recent_modified_files st)))).
    assert (Hall : Forall (fun x => (x <= 8 / thr)%R) scores).
    { apply List.Forall_forall. intros x Hx. apply in_map_iff in Hx.
      destruct Hx as (content & <- & _). now apply entropy_sample_score_ceiling. }
    destruct scores as [|s scores'] eqn:Hscores; [lra |]. rewrite <- Hscores in *.
    pose proof (fold_Rplus_upper (8 / thr) scores 0 Hall) as Hsum.
    assert (Hlen : (0 < INR (length scores))%R).
    { apply lt_0_INR. rewrite Hscores. simpl. lia. }
    unfold Rsum. apply (Rmult_le_reg_r (INR (length scores))); [exact Hlen |].
    unfold Rdiv at 1. rewrite Rmult_assoc, Rinv_l by lra. lra. }
  split; [exact Hle | lra].
Qed.

(** X6 at a concrete state: the threshold 16 on a log of one readable file. *)
Lemma entropy_detector_ceiling_witness :
  let st := with_runtime_config
              (cfg_set default_config K_ENTROPY_THRESHOLD (VFloat 16)) example_one_file_state in
  (8 < ENTROPY_THRESHOLD (runtime_config st))%R
  /\ (detect_entropy_score example_world st < 1)%R.
Proof.
  intros st.
  assert (Hthr : (8 < ENTROPY_THRESHOLD (runtime_config st))%R) by (simpl; lra).
  split; [exact Hthr |]. now apply entropy_detector_ceiling.
Defined.

(** ** [GET /status] does not disturb later evaluations *)

Lemma popleft_while_twice c1 c2 evs :
  c1 <= c2 -> popleft_while c2 (popleft_while c1 evs) = popleft_while c2 evs.
Proof.
  intros Hle. induction evs as [|e rest IH]; simpl; [reflexivity |].
  destruct (Z.ltb_spec e c1) as [Hlt | Hge].
  - rewrite IH. destruct (Z.ltb_spec e c2); [reflexivity | lia].
  - reflexivity.
Qed.

Lemma prune_twice now1 now2 c :
  now1 <= now2 -> _prune now2 (_prune now1 c) = _prune now2 c.
Proof.
  intros Hle. unfold _prune. simpl. f_equal. apply popleft_while_twice. lia.
Qed.

Lemma count_after_prune now1 now2 c :
  now1 <= now2 -> count now2 (_prune now1 c) = count now2 c.
Proof. intros Hle. unfold count. now rewrite prune_twice. Qed.

(** The evaluation reads the two counters through [count()] only. *)
Lemma compute_confidence_counters `{Host} ck w st cf cr :
  count (ck_file_rate ck) cf = count (ck_file_rate ck) (file_mod_counter st) ->
  count (ck_rename ck) cr = count (ck_rename ck) (rename_counter st) ->
  compute_confidence ck w (with_rename_counter cr (with_file_mod_counter cf st))
  = compute_confidence ck w st.
Proof.
  intros Hcf Hcr. unfold compute_confidence, detect_file_rate_score, detect_rename_score.
  cbn [file_mod_counter rename_counter runtime_config with_rename_counter
       with_file_mod_counter].
  rewrite Hcf. destruct (count (ck_file_rate ck) (file_mod_counter st)) as [cnt1 c1].
  cbn [file_mod_counter rename_counter runtime_config with_rename_counter
       with_file_mod_counter].
  rewrite Hcr. destruct (count (ck_rename ck) (rename_counter st)) as [cnt2 c2].
  reflexivity.
Qed.

(** The state left by an evaluation: the two counters pruned, in a way no
    later [count()] can tell from the counters before. *)
Lemma compute_confidence_leaves `{Host} ck w st :
  exists cf cr,
    snd (compute_confidence ck w st) = with_rename_counter cr (with_file_mod_counter cf st)
    /\ (forall t, ck_file_rate ck <= t -> ck_ml_file_rate ck <= t ->
          count t cf = count t (file_mod_counter st))
    /\ (forall t, ck_rename ck <= t -> ck_ml_rename ck <= t ->
          count t cr = count t (rename_counter st)).
Proof.
  unfold compute_confidence, detect_file_rate_score, detect_rename_score, detect_ml_score.
  unfold count at 1 2 3 4. cbn -[count _prune].
  destruct (ml_model st) as [decision_function |]; cbn -[count _prune].
  - destruct ML_AVAILABLE; cbn -[count _prune].
    + exists (_prune (ck_ml_file_rate ck) (_prune (ck_file_rate ck) (file_mod_counter st))),
             (_prune (ck_ml_rename ck) (_prune (ck_rename ck) (rename_counter st))).
      split; [reflexivity |].
      split; intros t H1 H2; now rewrite !count_after_prune.
    + exists (_prune (ck_file_rate ck) (file_mod_counter st)),
             (_prune (ck_rename ck) (rename_counter st)).
      split; [reflexivity |].
      split; intros t H1 H2; now rewrite count_after_prune.
  - exists (_prune (ck_file_rate ck) (file_mod_counter st)),
           (_prune (ck_rename ck) (rename_counter st)).
    split; [reflexivity |].
    split; intros t H1 H2; now rewrite count_after_prune.
Qed.

Lemma compute_confidence_after_earlier `{Host} ck1 ck2 w st :
  ck_file_rate ck1 <= ck_file_rate ck2 ->
  ck_ml_file_rate ck1 <= ck_file_rate ck2 ->
  ck_rename ck1 <= ck_rename ck2 ->
  ck_ml_rename ck1 <= ck_rename ck2 ->
  compute_confidence ck2 w (snd (compute_confidence ck1 w st)) = compute_confidence ck2 w st.
Proof.
  intros Hf Hmf Hr Hmr.
  destruct (compute_confidence_leaves ck1 w st) as (cf & cr & -> & Hcf & Hcr).
  apply compute_confidence_counters; [now apply Hcf | now apply Hcr].
Qed.

(** X7. A [GET /status] is invisible to any later evaluation: when the clock
    has not run backwards in between, an evaluation cycle started in the
    state the status call left gives the same alerts, state and file system
    as one started in the state before the call; the call itself changes
    neither the configuration, the log, the byte window nor the process
    history. *)
Theorem status_is_invisible_to_later_cycles `{Host}
    (ck1 ck2 : eval_clock) (io : action_io) (w : World) (st : State) :
  ck_file_rate ck1 <= ck_file_rate ck2 ->
  ck_ml_file_rate ck1 <= ck_file_rate ck2 ->
  ck_rename ck1 <= ck_rename ck2 ->
  ck_ml_rename ck1 <= ck_rename ck2 ->
  let st1 := snd (status ck1 w st) in
  compute_confidence ck2 w st1 = compute_confidence ck2 w st
  /\ agent_cycle ck2 io st1 w = agent_cycle ck2 io st w
  /\ runtime_config st1 = runtime_config st
  /\ recent_modified_files st1 = recent_modified_files st
  /\ bytes_written_window st1 = bytes_written_window st
  /\ proc_writes st1 = proc_writes st.
Proof.
  intros Hf Hmf Hr Hmr st1.
  assert (Hst1 : st1 = snd (compute_confidence ck1 w st)).
  { unfold st1, status. now destruct (compute_confidence ck1 w st) as [[c d] s]. }
  assert (Heq : compute_confidence ck2 w st1 = compute_confidence ck2 w st).
  { rewrite Hst1. now apply compute_confidence_after_earlier. }
  split; [exact Heq |]. split; [unfold agent_cycle; now rewrite Heq |].
  rewrite Hst1. destruct (compute_confidence_leaves ck1 w st) as (cf & cr & -> & _).
  repeat split; reflexivity.
Qed.

(** X7 at concrete clocks: a status call at 2 s followed by a cycle at 3 s. *)
Lemma status_is_invisible_to_later_cycles_witness :
  let ck1 := mkEvalClock 2000000 2000001 2000002 2000003 in
  let st1 := snd (@status example_host ck1 example_world example_modified_state) in
  @agent_cycle example_host example_eval_clock example_action_io st1 example_world
  = @agent_cycle example_host example_eval_clock example_action_io example_modified_state
      example_world.
Proof.
  intros ck1 st1.
  apply (@status_is_invisible_to_later_cycles example_host ck1 example_eval_clock
           example_action_io example_world example_modified_state); simpl; lia.
Defined.

(** ** A counter with a negative window *)




(** ** Requests to [/set_rates] compose *)

Lemma set_rates_loop_app `{Builtins} p1 p2 : forall c updated,
  set_rates_loop (p1 ++ p2) c updated
  = match set_rates_loop p1 c updated with
    | (None, c1, updated1) => set_rates_loop p2 c1 updated1
    | rejected => rejected
    end.
Proof.
  induction p1 as [|[k v] p1 IH]; intros c updated; simpl; [reflexivity |].
  destruct (lookup_key k) as [key |]; [| reflexivity].
  destruct (coerce c key v) as [x |]; [| reflexivity]. apply IH.
Qed.

(** The [updated] dictionary only accumulates: starting the loop from a
    non-empty dictionary adds its entries under those the loop writes. *)
Lemma set_rates_loop_updated `{Builtins} items : forall c updated,
  set_rates_loop items c updated
  = (fst (fst (set_rates_loop items c ∅)), snd (fst (set_rates_loop items c ∅)),
     snd (set_rates_loop items c ∅) ∪ updated).
Proof.
  induction items as [|[k v] rest IH]; intros c updated; simpl.
  - now rewrite (left_id_L ∅ (∪)).
  - destruct (lookup_key k) as [key |]; simpl; [| now rewrite (left_id_L ∅ (∪))].
    destruct (coerce c key v) as [x |]; simpl; [| now rewrite (left_id_L ∅ (∪))].
    rewrite (IH _ (<[k := _]> updated)), (IH _ (<[k := _]> ∅)). simpl.
    f_equal. rewrite <- (assoc_L (∪)). f_equal.
    rewrite insert_union_singleton_l, (insert_union_singleton_l ∅).
    now rewrite (right_id_L ∅ (∪)).
Qed.

Lemma set_rates_loop_keeps_window `{Builtins} items c :
  ~ In "TIME_WINDOW_SECONDS"%string (map fst items) ->
  TIME_WINDOW_SECONDS (snd (fst (set_rates_loop items c ∅))) = TIME_WINDOW_SECONDS c.
Proof.
  intros Hnot. pose proof (set_rates_loop_spec items c ∅) as Hspec.
  destruct (set_rates_loop items c ∅) as [[e c'] u]. destruct Hspec as (Hframe & _).
  specialize (Hframe K_TIME_WINDOW_SECONDS Hnot). simpl in *. now inversion Hframe.
Qed.

(** X9. An accepted request can be split: when [/set_rates] answers 200 to
    the items [p1 ++ p2], it answers 200 to [p1] and then to [p2], the state
    reached is the same, and the [updated] dictionary of the whole request
    is the union of the two. *)
Theorem set_rates_accepted_request_splits `{Builtins}
    (p1 p2 : list (string * json)) (st : State) (updated : gmap string cfg_val) :
  fst (set_rates (p1 ++ p2) st) = Ok200 updated ->
  exists updated1 updated2,
    fst (set_rates p1 st) = Ok200 updated1
    /\ fst (set_rates p2 (snd (set_rates p1 st))) = Ok200 updated2
    /\ updated = updated2 ∪ updated1
    /\ snd (set_rates (p1 ++ p2) st) = snd (set_rates p2 (snd (set_rates p1 st))).
Proof.
  unfold set_rates. rewrite set_rates_loop_app.
  pose proof (set_rates_loop_spec p1 (runtime_config st) ∅) as Hspec1.
  destruct (set_rates_loop p1 (runtime_config st) ∅) as [[[e1 |] c1] u1] eqn:Hl1.
  { simpl. discriminate. }
  destruct Hspec1 as (_ & _ & _ & Hdom1).
  rewrite (set_rates_loop_updated p2 c1 u1).
  pose proof (set_rates_loop_spec p2 c1 ∅) as Hspec2.
  pose proof (set_rates_loop_keeps_window p2 c1) as Hwin.
  assert (Hcfg : forall s, runtime_config (with_rename_counter
                    (SlidingWindowCounter_init (TIME_WINDOW_SECONDS c1))
                    (with_file_mod_counter
                       (SlidingWindowCounter_init (TIME_WINDOW_SECONDS c1))
                       (with_runtime_config c1 s))) = c1) by reflexivity.
  destruct (bool_decide ("TIME_WINDOW_SECONDS"%string ∈ dom u1)) eqn:Hd1;
    cbn [fst snd runtime_config with_runtime_config with_file_mod_counter
         with_rename_counter];
    destruct (set_rates_loop p2 c1 ∅) as [[[e2 |] c2] u2] eqn:Hl2;
    cbn [fst snd]; try discriminate;
    destruct Hspec2 as (_ & _ & _ & Hdom2);
    rewrite dom_empty_L, (left_id_L ∅ (∪)) in Hdom2.
  - (* the window key is in p1 *)
    apply bool_decide_eq_true in Hd1.
    rewrite bool_decide_eq_true_2
      by (rewrite dom_union_L; apply elem_of_union; now right).
    intros [= <-]. exists u1, u2.
    destruct (bool_decide ("TIME_WINDOW_SECONDS"%string ∈ dom u2)) eqn:Hd2.
    + repeat split; reflexivity.
    + apply bool_decide_eq_false in Hd2.
      assert (Hsame : TIME_WINDOW_SECONDS c2 = TIME_WINDOW_SECONDS c1).
      { apply Hwin. intros Hin. apply Hd2. rewrite Hdom2.
        apply elem_of_list_to_set, list_elem_of_In. exact Hin. }
      cbn [fst snd runtime_config with_runtime_config with_file_mod_counter
           with_rename_counter] in *.
      repeat split; try reflexivity.
      unfold with_rename_counter, with_file_mod_counter, with_runtime_config; simpl.
      now rewrite Hsame.
  - (* the window key is not in p1 *)
    apply bool_decide_eq_false in Hd1.
    destruct (bool_decide ("TIME_WINDOW_SECONDS"%string ∈ dom u2)) eqn:Hd2.
    + apply bool_decide_eq_true in Hd2.
      rewrite bool_decide_eq_true_2
        by (rewrite dom_union_L; apply elem_of_union; now left).
      intros [= <-]. exists u1, u2. repeat split; reflexivity.
    + apply bool_decide_eq_false in Hd2.
      rewrite bool_decide_eq_false_2
        by (rewrite dom_union_L; intros [Hin | Hin]%elem_of_union; contradiction).
      intros [= <-]. exists u1, u2. repeat split; reflexivity.
Qed.

(** X9 at a concrete request of two items. *)
Lemma set_rates_accepted_request_splits_witness :
  let p1 := [("TIME_WINDOW_SECONDS"%string, JInt 60)] in
  let p2 := [("RENAMES_THRESHOLD"%string, JInt 7)] in
  exists updated,
    fst (@set_rates example_builtins (p1 ++ p2) example_modified_state) = Ok200 updated
    /\ snd (@set_rates example_builtins (p1 ++ p2) example_modified_state)
       = snd (@set_rates example_builtins p2
                (snd (@set_rates example_builtins p1 example_modified_state))).
Proof.
  intros p1 p2.
  assert (Hrun : exists updated,
            fst (@set_rates example_builtins (p1 ++ p2) example_modified_state)
            = Ok200 updated).
  { eexists. vm_compute. reflexivity. }
  destruct Hrun as (updated & Hrun). exists updated. split; [exact Hrun |].
  destruct (@set_rates_accepted_request_splits example_builtins p1 p2
              example_modified_state updated Hrun) as (u1 & u2 & _ & _ & _ & Hstate).
  exact Hstate.
Defined.

(** ** A rejected request that had changed the window *)

(** X10. When a request starts with an acceptable [TIME_WINDOW_SECONDS],
    does not repeat that key, and is rejected at a later item, the answer is
    400 while the new window is already stored, and the early return skips
    the rebuilding of the counters: both keep their events and their old
    window, which no longer matches the configuration. *)
Theorem rejected_request_leaves_window_changed `{Builtins}
    (v : json) (z : Z) (rest : list (string * json)) (st : State) (error : string) :
  py_int v = Some z ->
  ~ In "TIME_WINDOW_SECONDS"%string (map fst rest) ->
  fst (set_rates (("TIME_WINDOW_SECONDS"%string, v) :: rest) st) = Error400 error ->
  let st' := snd (set_rates (("TIME_WINDOW_SECONDS"%string, v) :: rest) st) in
  TIME_WINDOW_SECONDS (runtime_config st') = z
  /\ file_mod_counter st' = file_mod_counter st
  /\ rename_counter st' = rename_counter st
  /\ recent_modified_files st' = recent_modified_files st.
Proof.
  intros Hv Hnot. unfold set_rates.
  change (("TIME_WINDOW_SECONDS"%string, v) :: rest)
    with ([("TIME_WINDOW_SECONDS"%string, v)] ++ rest).
  rewrite set_rates_loop_app. cbn [set_rates_loop].
  change (lookup_key "TIME_WINDOW_SECONDS") with (Some K_TIME_WINDOW_SECONDS).
  unfold coerce. cbn [cfg_get]. rewrite Hv. cbn [fmap option_fmap option_map].
  set (c1 := cfg_set (runtime_config st) K_TIME_WINDOW_SECONDS (VInt z)).
  rewrite (set_rates_loop_updated rest c1).
  pose proof (set_rates_loop_keeps_window rest c1 Hnot) as Hwin.
  destruct (set_rates_loop rest c1 ∅) as [[[e |] c2] u2]; cbn [fst snd] in *.
  - intros _. repeat split; try reflexivity. cbn. exact Hwin.
  - destruct (bool_decide _); discriminate.
Qed.

(** X10 at a concrete request: the window goes to 60 s in the configuration
    while the counter keeps its 15 s window and its event. *)
Lemma rejected_request_leaves_window_changed_witness :
  let payload := [("TIME_WINDOW_SECONDS"%string, JInt 60); ("BOGUS"%string, JInt 1)] in
  let st' := snd (@set_rates example_builtins payload example_modified_state) in
  fst (@set_rates example_builtins payload example_modified_state)
    = Error400 "unknown key BOGUS"
  /\ TIME_WINDOW_SECONDS (runtime_config st') = 60
  /\ window (file_mod_counter st') = 15000000
  /\ events (file_mod_counter st') = [1000000].
Proof.
  intros payload st'.
  assert (Hresp : fst (@set_rates example_builtins payload example_modified_state)
                  = Error400 "unknown key BOGUS") by (vm_compute; reflexivity).
  destruct (@rejected_request_leaves_window_changed example_builtins (JInt 60) 60
              [("BOGUS"%string, JInt 1)] example_modified_state "unknown key BOGUS")
    as (Hwin & Hfile & _); [reflexivity | simpl; intros [H | []]; discriminate | exact Hresp |].
  split; [exact Hresp |]. split; [exact Hwin |].
  unfold st', payload. rewrite Hfile. split; vm_compute; reflexivity.
Defined.

(** ** The process detector reports the largest candidate *)

Section ProcBehavior.
Local Open Scope R_scope.

Lemma proc_behavior_loop_members thr items : forall scores s,
  In s (proc_behavior_loop thr items scores)
  <-> In s scores
      \/ exists pid dq, In (pid, dq) items /\ proc_scored thr dq /\ s = proc_candidate thr dq.
Proof.
  induction items as [|[pid dq] rest IH]; intros scores s; cbn [proc_behavior_loop].
  - split; [now left | intros [H | (? & ? & [] & _)]; exact H].
  - assert (Hrest : forall sc,
              (In s sc \/ exists pid' dq', In (pid', dq') rest /\ proc_scored thr dq'
                                           /\ s = proc_candidate thr dq')
              -> In s sc
                 \/ exists pid' dq', In (pid', dq') ((pid, dq) :: rest)
                                     /\ proc_scored thr dq' /\ s = proc_candidate thr dq').
    { intros sc [H | (p & d & Hin & Hsc & Hs)]; [now left |].
      right. exists p, d. split; [now right | auto]. }
    destruct dq as [|hd tl].
    + rewrite IH. split; [apply Hrest |].
      intros [H | (p & d & [Heq | Hin] & Hsc & Hs)]; [now left | | right; eauto].
      inversion Heq; subst. destruct Hsc as (Hlen & _). simpl in Hlen. lia.
    + destruct (Nat.leb_spec 2 (length (hd :: tl))) as [Hlen | Hlen].
      * destruct (Rlt_dec (1 / 10) (Rmin 1 (IZR (write_delta hd (hd :: tl)) / Rmax 1 thr)))
          as [Hgt | Hngt]; rewrite IH.
        -- split.
           ++ intros [Hin | Hex]; [| apply Hrest; now right].
              apply in_app_or in Hin. destruct Hin as [Hin | [<- | []]]; [now left |].
              right. exists pid, (hd :: tl). split; [now left |].
              split; [split; assumption | reflexivity].
           ++ intros [H | (p & d & [Heq | Hin] & Hsc & Hs)].
              ** left. apply in_or_app. now left.
              ** inversion Heq; subst. left. apply in_or_app. right. now left.
              ** right. eauto.
        -- split; [apply Hrest |].
           intros [H | (p & d & [Heq | Hin] & Hsc & Hs)]; [now left | | right; eauto].
           inversion Heq; subst. destruct Hsc as (_ & Hc). contradiction.
      * rewrite IH. split; [apply Hrest |].
        intros [H | (p & d & [Heq | Hin] & Hsc & Hs)]; [now left | | right; eauto].
        inversion Heq; subst. destruct Hsc as (Hl & _). lia.
Qed.

Lemma fold_Rmax_spec xs : forall acc,
  acc <= fold_left Rmax xs acc
  /\ (forall x, In x xs -> x <= fold_left Rmax xs acc)
  /\ (fold_left Rmax xs acc = acc \/ In (fold_left Rmax xs acc) xs).
Proof.
  induction xs as [|x xs IH]; intros acc; simpl.
  - split; [lra |]. split; [intros x [] | now left].
  - destruct (IH (Rmax acc x)) as (Hacc & Hall & Hin).
    pose proof (Rmax_l acc x). pose proof (Rmax_r acc x).
    split; [lra |]. split.
    + intros y [<- | Hy]; [lra | now apply Hall].
    + destruct Hin as [Heq | Hin]; [| right; now right].
      rewrite Heq. unfold Rmax. destruct (Rle_dec acc x); [right; now left | now left].
Qed.

Lemma Rmax_list_or_zero_spec scores :
  (forall s, In s scores -> s <= Rmax_list_or_zero scores)
  /\ (scores = [] /\ Rmax_list_or_zero scores = 0
      \/ In (Rmax_list_or_zero scores) scores).
Proof.
  destruct scores as [|s rest]; simpl.
  - split; [intros s [] | now left].
  - destruct (fold_Rmax_spec rest s) as (Hacc & Hall & Hin). split.
    + intros x [<- | Hx]; [exact Hacc | now apply Hall].
    + right. destruct Hin as [-> | Hin]; [now left | now right].
Qed.

Lemma detect_proc_behavior_score_max st :
  let thr := proc_threshold st in
  (forall pid dq, proc_writes st !! pid = Some dq -> proc_scored thr dq ->
     proc_candidate thr dq <= detect_proc_behavior_score st)
  /\ (detect_proc_behavior_score st = 0
      \/ exists pid dq, proc_writes st !! pid = Some dq /\ proc_scored thr dq
                        /\ detect_proc_behavior_score st = proc_candidate thr dq).
Proof.
  intros thr. unfold detect_proc_behavior_score. fold (proc_threshold st). fold thr.
  set (scores := proc_behavior_loop thr (map_to_list (proc_writes st)) []).
  destruct (Rmax_list_or_zero_spec scores) as (Hub & Hmax).
  assert (Hmem : forall s, In s scores <->
            exists pid dq, proc_writes st !! pid = Some dq /\ proc_scored thr dq
                           /\ s = proc_candidate thr dq).
  { intros s. unfold scores. rewrite proc_behavior_loop_members. split.
    - intros [[] | (pid & dq & Hin & Hsc & Hs)]. exists pid, dq.
      split; [| auto]. apply list_elem_of_In in Hin.
      now apply elem_of_map_to_list in Hin.
    - intros (pid & dq & Hlk & Hsc & Hs). right. exists pid, dq.
      split; [| auto]. apply list_elem_of_In. now apply elem_of_map_to_list. }
  split.
  - intros pid dq Hlk Hsc. apply Hub, Hmem. eauto.
  - destruct Hmax as [(_ & Hz) | Hin]; [now left |].
    right. apply Hmem in Hin. destruct Hin as (pid & dq & Hlk & Hsc & Hs). eauto.
Qed.
End ProcBehavior.

(** X11. [detect_proc_behavior_score] is the largest candidate among the
    tracked processes: it bounds the candidate of every process with at least
    two samples and a candidate above 0.1, it is the candidate of one of them
    unless it is 0, and it is 0 when no process qualifies. *)
Theorem proc_behavior_is_largest_candidate (st : State) :
  let thr := proc_threshold st in
  (forall pid dq, proc_writes st !! pid = Some dq -> proc_scored thr dq ->
     (proc_candidate thr dq <= detect_proc_behavior_score st)%R)
  /\ (detect_proc_behavior_score st = 0%R
      \/ exists pid dq, proc_writes st !! pid = Some dq /\ proc_scored thr dq
                        /\ detect_proc_behavior_score st = proc_candidate thr dq)
  /\ ((forall pid dq, proc_writes st !! pid = Some dq -> ~ proc_scored thr dq) ->
      detect_proc_behavior_score st = 0%R).
Proof.
  intros thr. destruct (detect_proc_behavior_score_max st) as (Hub & Hmax).
  split; [exact Hub |]. split; [exact Hmax |].
  intros Hnone. destruct Hmax as [Hz | (pid & dq & Hlk & Hsc & _)]; [exact Hz |].
  exfalso. eapply Hnone; eauto.
Qed.

Lemma example_proc_scored :
  proc_scored (proc_threshold example_proc_state) [(1000000, 0); (1500000, 5000)].
Proof.
  split; [simpl; lia |].
  unfold proc_candidate, proc_threshold, write_delta. simpl.
  change (5000 - 0) with 5000. change (10 * 1024) with 10240.
  rewrite Rmax_right by lra. apply Rmin_glb_lt; lra.
Qed.

(** X11 at a concrete state: the candidate of pid 42 is below the score. *)
Lemma proc_behavior_is_largest_candidate_witness :
  let dq : list (Z * Z) := [(1000000, 0); (1500000, 5000)] in
  proc_writes example_proc_state !! 42 = Some dq
  /\ (proc_candidate (proc_threshold example_proc_state) dq
      <= detect_proc_behavior_score example_proc_state)%R.
Proof.
  intros dq.
  assert (Hlk : proc_writes example_proc_state !! 42
                = Some [(1000000, 0); (1500000, 5000)]) by reflexivity.
  split; [exact Hlk |].
  destruct (proc_behavior_is_largest_candidate example_proc_state) as (Hub & _).
  apply (Hub 42 _ Hlk). exact example_proc_scored.
Defined.

(** ** The process monitor *)

Lemma monitor_process_frame p st :
  runtime_config (monitor_process p st) = runtime_config st
  /\ file_mod_counter (monitor_process p st) = file_mod_counter st
  /\ rename_counter (monitor_process p st) = rename_counter st
  /\ bytes_written_window (monitor_process p st) = bytes_written_window st
  /\ recent_modified_files (monitor_process p st) = recent_modified_files st.
Proof.
  unfold monitor_process. destruct (whitelisted p); [repeat split |].
  destruct (negb (ps_cpu_ok p)); repeat split.
Qed.

Lemma monitor_process_other p st pid :
  sampled p = false \/ ps_pid p <> pid ->
  proc_writes (monitor_process p st) !! pid = proc_writes st !! pid.
Proof.
  unfold sampled, monitor_process. intros Hother.
  destruct (whitelisted p); [reflexivity |].
  destruct (ps_cpu_ok p); simpl in *; [| reflexivity].
  destruct Hother as [Hs | Hne]; [discriminate |].
  now rewrite lookup_insert_ne.
Qed.

Lemma process_monitor_sweep_frame procs : forall st,
  runtime_config (process_monitor_sweep procs st) = runtime_config st
  /\ file_mod_counter (process_monitor_sweep procs st) = file_mod_counter st
  /\ rename_counter (process_monitor_sweep procs st) = rename_counter st
  /\ bytes_written_window (process_monitor_sweep procs st) = bytes_written_window st
  /\ recent_modified_files (process_monitor_sweep procs st) = recent_modified_files st.
Proof.
  induction procs as [|p procs IH]; intros st; simpl; [repeat split |].
  destruct (IH (monitor_process p st)) as (H1 & H2 & H3 & H4 & H5).
  destruct (monitor_process_frame p st) as (G1 & G2 & G3 & G4 & G5).
  unfold process_monitor_sweep in *. simpl.
  rewrite H1, H2, H3, H4, H5. auto.
Qed.

Lemma process_monitor_sweep_other procs pid : forall st,
  (forall p, In p procs -> sampled p = false \/ ps_pid p <> pid) ->
  proc_writes (process_monitor_sweep procs st) !! pid = proc_writes st !! pid.
Proof.
  induction procs as [|p procs IH]; intros st Hall; simpl; [reflexivity |].
  unfold process_monitor_sweep in *. simpl. rewrite IH.
  - apply monitor_process_other. apply Hall. now left.
  - intros q Hq. apply Hall. now right.
Qed.

(** X12. A sweep of the process monitor touches only the histories of the
    processes it samples: for a pid that no sampled process of the sweep has
    (the process has exited, is white-listed, or cannot be read) the deque is
    left as it was, never pruned, so a candidate above 0.1 it carries keeps
    bounding [detect_proc_behavior_score] from below; the sweep changes
    nothing else in the state. *)
Theorem sweep_keeps_unsampled_histories
    (procs : list proc_sample) (st : State) (pid : Z) (dq : list (Z * Z)) :
  (forall p, In p procs -> sampled p = false \/ ps_pid p <> pid) ->
  proc_writes st !! pid = Some dq ->
  let st' := process_monitor_sweep procs st in
  proc_writes st' !! pid = Some dq
  /\ (proc_scored (proc_threshold st) dq ->
      (proc_candidate (proc_threshold st) dq <= detect_proc_behavior_score st')%R)
  /\ runtime_config st' = runtime_config st
  /\ file_mod_counter st' = file_mod_counter st
  /\ rename_counter st' = rename_counter st
  /\ bytes_written_window st' = bytes_written_window st
  /\ recent_modified_files st' = recent_modified_files st.
Proof.
  intros Hall Hlk st'.
  assert (Hlk' : proc_writes st' !! pid = Some dq).
  { unfold st'. now rewrite process_monitor_sweep_other. }
  destruct (process_monitor_sweep_frame procs st) as (Hcfg & Hf & Hr & Hb & Hl).
  split; [exact Hlk' |]. split; [| now repeat split].
  intros Hsc. destruct (detect_proc_behavior_score_max st') as (Hub & _).
  assert (Hthr : proc_threshold st' = proc_threshold st).
  { unfold proc_threshold, st'. now rewrite Hcfg. }
  rewrite Hthr in Hub. now apply (Hub pid dq).
Qed.

(** X12 at a concrete sweep: pid 42 has exited; the sweep sees a white-listed
    [python] with the same pid and another process. *)
Lemma sweep_keeps_unsampled_histories_witness :
  let procs := [ mkProcSample (Some "python"%string) 42 true (Some 9000) 2000000 2000001;
                 mkProcSample (Some "evil"%string) 7 true (Some 100) 2000002 2000003 ] in
  proc_writes (process_monitor_sweep procs example_proc_state) !! 42
  = Some [(1000000, 0); (1500000, 5000)].
Proof.
  intros procs.
  apply (sweep_keeps_unsampled_histories procs example_proc_state 42).
  - intros p [<- | [<- | []]]; [left; reflexivity | right; discriminate].
  - reflexivity.
Defined.

(** ** The ransom-note detector *)

(** X13. [detect_ransom_note_score] is 1 exactly when some logged path
    exists and has an upper-cased name containing one of the patterns, and
    it is 0 otherwise. *)
Theorem ransom_note_score_iff (w : World) (st : State) :
  (detect_ransom_note_score w st = 1%R
   <-> exists p, In p (recent_modified_files st)
                 /\ path_exists w p = true
                 /\ matches_ransom_pattern (upper (path_name p)) = true)
  /\ (detect_ransom_note_score w st = 0%R \/ detect_ransom_note_score w st = 1%R).
Proof.
  unfold detect_ransom_note_score.
  induction (recent_modified_files st) as [|p ps (IHiff & IHval)]; simpl.
  - split; [| now left]. split; [intros H; lra | intros (p & [] & _)].
  - destruct (path_exists w p) eqn:Hex; simpl.
    + destruct (matches_ransom_pattern (upper (path_name p))) eqn:Hm.
      * split; [| now right]. split; [| reflexivity]. intros _. exists p. auto.
      * split; [| exact IHval]. rewrite IHiff. split.
        -- intros (q & Hin & Hq). exists q. split; [now right | exact Hq].
        -- intros (q & [<- | Hin] & Hqe & Hqm); [congruence |]. exists q. auto.
    + split; [| exact IHval]. rewrite IHiff. split.
      * intros (q & Hin & Hq). exists q. split; [now right | exact Hq].
      * intros (q & [<- | Hin] & Hqe & Hqm); [congruence |]. exists q. auto.
Qed.

(** X13 at a concrete log: a lower-case ransom note that exists. *)
Lemma ransom_note_score_iff_witness :
  let note := ["srv"; "agent"; "demo_sandbox"; "readme_for_decrypt.txt"]%string in
  let w := {| files := {[ note := [x41] ]}; unreadable := ∅ |} in
  let st := with_recent_modified_files [example_file; note] initial_state in
  detect_ransom_note_score w st = 1%R.
Proof.
  intros note w st.
  destruct (ransom_note_score_iff w st) as (Hiff & _).
  apply Hiff. exists note. split; [right; now left |].
  split; vm_compute; reflexivity.
Defined.

(** ** The connection manager *)

Lemma broadcast_loop_spec {M : Type} send_ok (msg : M) conns :
  forall i living delivered closed,
  exists kept dropped,
    broadcast_loop send_ok i msg conns living delivered closed
    = (living ++ kept, delivered ++ map (fun c => (c, msg)) kept, closed ++ dropped)
    /\ kept `sublist_of` conns
    /\ kept ++ dropped ≡ₚ conns
    /\ (forall j c, conns !! j = Some c -> send_ok (i + j)%nat = true -> In c kept)
    /\ (forall j c, conns !! j = Some c -> send_ok (i + j)%nat = false -> In c dropped)
    /\ ((forall j, (j < length conns)%nat -> send_ok (i + j)%nat = true) ->
        kept = conns /\ dropped = []).
Proof.
  induction conns as [|conn rest IH]; intros i living delivered closed; simpl.
  - exists [], []. rewrite !app_nil_r. repeat split; done.
  - destruct (send_ok i) eqn:Hok.
    + destruct (IH (S i) (living ++ [conn]) (delivered ++ [(conn, msg)]) closed)
        as (kept & dropped & -> & Hsub & Hperm & Hk & Hd & Hall).
      exists (conn :: kept), dropped. rewrite <- !app_assoc. simpl.
      split; [reflexivity |]. split; [now constructor |].
      split; [now rewrite Hperm |]. split; [| split].
      * intros [|j] c Hj Hs; simpl in Hj.
        -- inversion Hj; subst. now left.
        -- right. apply (Hk j); [exact Hj |]. now replace (S i + j)%nat with (i + S j)%nat by lia.
      * intros [|j] c Hj Hs; simpl in Hj.
        -- rewrite Nat.add_0_r in Hs. congruence.
        -- apply (Hd j); [exact Hj |]. now replace (S i + j)%nat with (i + S j)%nat by lia.
      * intros Hevery. destruct Hall as (-> & ->); [| now split].
        intros j Hj. replace (S i + j)%nat with (i + S j)%nat by lia. apply Hevery. lia.
    + destruct (IH (S i) living delivered (closed ++ [conn]))
        as (kept & dropped & -> & Hsub & Hperm & Hk & Hd & Hall).
      exists kept, (conn :: dropped). rewrite <- !app_assoc. simpl.
      split; [reflexivity |]. split; [now constructor |].
      split; [now rewrite <- Permutation_middle, Hperm |]. split; [| split].
      * intros [|j] c Hj Hs; simpl in Hj.
        -- rewrite Nat.add_0_r in Hs. congruence.
        -- apply (Hk j); [exact Hj |]. now replace (S i + j)%nat with (i + S j)%nat by lia.
      * intros [|j] c Hj Hs; simpl in Hj.
        -- inversion Hj; subst. now left.
        -- right. apply (Hd j); [exact Hj |]. now replace (S i + j)%nat with (i + S j)%nat by lia.
      * intros Hevery. specialize (Hevery 0%nat ltac:(lia)).
        rewrite Nat.add_0_r in Hevery. congruence.
Qed.

(** X14. [broadcast] delivers the message once to each connection whose
    send succeeds and keeps exactly those, in their order; it closes and
    drops every connection whose send raises; it adds no connection; and
    when every send succeeds the list is unchanged. *)
Theorem broadcast_keeps_reachable_connections {M : Type}
    (send_ok : nat -> bool) (msg : M) (active_connections : list nat) :
  let living := fst (fst (broadcast send_ok msg active_connections)) in
  let delivered := snd (fst (broadcast send_ok msg active_connections)) in
  let closed := snd (broadcast send_ok msg active_connections) in
  delivered = map (fun c => (c, msg)) living
  /\ living `sublist_of` active_connections
  /\ living ++ closed ≡ₚ active_connections
  /\ (forall j c, active_connections !! j = Some c -> send_ok j = true -> In c living)
  /\ (forall j c, active_connections !! j = Some c -> send_ok j = false -> In c closed)
  /\ ((forall j, (j < length active_connections)%nat -> send_ok j = true) ->
      living = active_connections /\ closed = []).
Proof.
  intros living delivered closed. subst living delivered closed. unfold broadcast.
  destruct (broadcast_loop_spec send_ok msg active_connections 0 [] [] [])
    as (kept & dropped & -> & Hsub & Hperm & Hk & Hd & Hall).
  simpl. repeat split; auto.
  - now apply Hall.
  - now apply Hall.
Qed.

(** X14 at a concrete broadcast: the second of three sends raises. *)
Lemma broadcast_keeps_reachable_connections_witness :
  let send_ok := fun j : nat => negb (Nat.eqb j 1) in
  broadcast send_ok "alert"%string [10; 11; 12]%nat
  = ([10; 12]%nat, [(10%nat, "alert"%string); (12%nat, "alert"%string)], [11]%nat)
  /\ In 12%nat (fst (fst (broadcast send_ok "alert"%string [10; 11; 12]%nat))).
Proof.
  intros send_ok. split; [reflexivity |].
  destruct (broadcast_keeps_reachable_connections send_ok "alert"%string [10; 11; 12]%nat)
    as (_ & _ & _ & Hk & _).
  apply (Hk 2%nat); reflexivity.
Defined.

Lemma list_remove_spec x l :
  match list_remove x l with
  | Some l' => exists l1 l2, l = l1 ++ x :: l2 /\ ~ In x l1 /\ l' = l1 ++ l2
  | None => ~ In x l
  end.
Proof.
  induction l as [|y rest IH]; simpl; [tauto |].
  destruct (Nat.eqb_spec y x) as [-> | Hne].
  - exists [], rest. simpl. tauto.
  - destruct (list_remove x rest) as [rest' |].
    + destruct IH as (l1 & l2 & -> & Hnot & ->).
      exists (y :: l1), l2. simpl. split; [reflexivity |]. split; [| reflexivity].
      intros [Heq | Hin]; [congruence | contradiction].
    + intros [Heq | Hin]; [congruence | contradiction].
Qed.

(** X15. [disconnect] removes the first occurrence of the websocket and
    nothing else, and leaves the list as it is when the websocket is not in
    it; disconnecting a websocket just connected to a list that did not hold
    it gives the list back. *)
Theorem disconnect_removes_first_occurrence (websocket : nat) (active_connections : list nat) :
  (~ In websocket active_connections ->
     disconnect websocket active_connections = active_connections
     /\ disconnect websocket (snd (connect true websocket active_connections))
        = active_connections)
  /\ (In websocket active_connections ->
        exists l1 l2, active_connections = l1 ++ websocket :: l2
                      /\ ~ In websocket l1
                      /\ disconnect websocket active_connections = l1 ++ l2).
Proof.
  unfold disconnect. split.
  - intros Hnot. split.
    + pose proof (list_remove_spec websocket active_connections) as Hspec.
      destruct (list_remove websocket active_connections); [| reflexivity].
      destruct Hspec as (l1 & l2 & -> & _). exfalso. apply Hnot.
      apply in_or_app. right. now left.
    + simpl. pose proof (list_remove_spec websocket (active_connections ++ [websocket]))
        as Hspec.
      destruct (list_remove websocket (active_connections ++ [websocket])) as [l' |].
      * destruct Hspec as (l1 & l2 & Heq & Hl1 & ->).
        destruct l2 as [|z l2] using rev_ind.
        -- rewrite app_nil_r. apply app_inj_tail in Heq. destruct Heq as (Heq & _).
           now symmetry.
        -- exfalso. rewrite app_comm_cons, app_assoc in Heq.
           apply app_inj_tail in Heq. destruct Heq as (Heq & _).
           apply Hnot. rewrite Heq. apply in_or_app. right. now left.
      * exfalso. apply Hspec, in_or_app. right. now left.
  - intros Hin. pose proof (list_remove_spec websocket active_connections) as Hspec.
    destruct (list_remove websocket active_connections); [| contradiction].
    exact Hspec.
Qed.

(** X15 at a concrete list. *)
Lemma disconnect_removes_first_occurrence_witness :
  disconnect 7 (snd (connect true 7 [3; 5]%nat)) = [3; 5]%nat.
Proof.
  destruct (disconnect_removes_first_occurrence 7 [3; 5]%nat) as (Hfresh & _).
  apply Hfresh. simpl. intros [H | [H | []]]; discriminate.
Defined.

(** ** What the action pipeline leaves alone *)

Lemma write_file_unreadable fate dest data w r w' :
  write_file fate dest data w = (r, w') -> unreadable w' = unreadable w.
Proof. destruct fate; simpl; intros [= <- <-]; reflexivity. Qed.

Lemma encrypt_and_store_other `{Host} io filepath backup_dir w r w' q :
  encrypt_and_store io filepath backup_dir w = (r, w') ->
  (q <> path_join backup_dir (snapshot_name filepath (snap_stamp io)) ->
   files w' !! q = files w !! q)
  /\ unreadable w' = unreadable w.
Proof.
  unfold encrypt_and_store.
  destruct (negb (snap_mkdir_ok io)); [intros [= <- <-]; auto |].
  destruct (open_read w filepath) as [data |]; [| intros [= <- <-]; auto].
  destruct (aes_encrypt AESGCM_KEY (snap_nonce io) data) as [ct |];
    [| intros [= <- <-]; auto].
  intros Hw. split.
  - intros Hne. eapply write_file_other; eauto.
  - eapply write_file_unreadable; eauto.
Qed.

Lemma snapshot_loop_other `{Host} ios ps q :
  (forall name, q <> path_join BACKUP_DIR name) ->
  forall i snap_list w,
    files (snd (snapshot_loop ios i ps snap_list w)) !! q = files w !! q
    /\ unreadable (snd (snapshot_loop ios i ps snap_list w)) = unreadable w.
Proof.
  intros Hq. induction ps as [|p rest IH]; intros i snap_list w; cbn [snapshot_loop].
  - auto.
  - destruct (encrypt_and_store (ios i) p BACKUP_DIR w) as [[u |] w1] eqn:Hcall;
      destruct (encrypt_and_store_other _ _ _ _ _ _ q Hcall) as (Hother & Hunr).
    + destruct (IH (S i) (snap_list ++ [str_of_None u]) w1) as (IH1 & IH2).
      rewrite IH1, IH2, Hother by apply Hq. auto.
    + destruct (IH (S i) snap_list w1) as (IH1 & IH2).
      rewrite IH1, IH2, Hother by apply Hq. auto.
Qed.

Lemma move_to_quarantine_other `{Host} io path w q :
  (q <> path -> q <> quarantine_dest io path ->
   files (snd (move_to_quarantine io path w)) !! q = files w !! q)
  /\ unreadable (snd (move_to_quarantine io path w)) = unreadable w.
Proof.
  unfold move_to_quarantine.
  destruct (negb (quar_mkdir_ok io)); [auto |].
  destruct (copy2 (quar_copy io) path (quarantine_dest io path) w) as [[u |] w1] eqn:Hcopy.
  - assert (Hc : (q <> quarantine_dest io path -> files w1 !! q = files w !! q)
                 /\ unreadable w1 = unreadable w).
    { unfold copy2 in Hcopy. destruct (decide _); [discriminate |].
      destruct (open_read w path); [| discriminate]. split.
      - intros Hne. eapply write_file_other; eauto.
      - eapply write_file_unreadable; eauto. }
    destruct Hc as (Hfiles & Hunr). unfold unlink.
    destruct (quar_unlink_ok io); simpl.
    + split; [| exact Hunr]. intros Hp Hd. rewrite lookup_delete_ne by congruence. auto.
    + split; [| exact Hunr]. auto.
  - simpl. unfold copy2 in Hcopy. destruct (decide _); [inversion Hcopy; auto |].
    destruct (open_read w path); [| inversion Hcopy; auto]. split.
    + intros _ Hne. eapply write_file_other; eauto.
    + eapply write_file_unreadable; eauto.
Qed.

(** X16. The action pipeline writes nowhere but in the backup and quarantine
    directories and removes nothing but the file it quarantines: every other
    path holds after [snapshot_and_alert], and after a whole evaluation
    cycle, what it held before, and the set of unreadable paths is
    unchanged. *)
Theorem action_pipeline_leaves_other_files `{Host}
    (ck : eval_clock) (io : action_io) (confidence : R) (detectors : list (string * R))
    (st : State) (w : World) (q : list string) :
  (forall name, q <> path_join BACKUP_DIR name) ->
  (forall name, q <> path_join QUARANTINE_DIR name) ->
  quarantine_target st <> Some q ->
  files (snd (snapshot_and_alert io confidence detectors st w)) !! q = files w !! q
  /\ unreadable (snd (snapshot_and_alert io confidence detectors st w)) = unreadable w
  /\ files (snd (agent_cycle ck io st w)) !! q = files w !! q
  /\ unreadable (snd (agent_cycle ck io st w)) = unreadable w.
Proof.
  intros Hb Hq Ht.
  assert (Hgen : forall c d s, recent_modified_files s = recent_modified_files st ->
            files (snd (snapshot_and_alert io c d s w)) !! q = files w !! q
            /\ unreadable (snd (snapshot_and_alert io c d s w)) = unreadable w).
  { intros c d s Hs. unfold snapshot_and_alert, snapshot_targets, quarantine_target in *.
    rewrite Hs.
    destruct (snapshot_loop_other (act_snapshot io) (firstn 20 (recent_modified_files st))
                q Hb 0%nat [] w) as (Hf & Hu).
    destruct (snapshot_loop _ _ _ _ _) as [snap_list w1]. simpl in *.
    destruct (recent_modified_files st) as [|p rest]; [auto |].
    destruct (move_to_quarantine_other (act_quarantine io) (List.last rest p) w1 q)
      as (Hmf & Hmu).
    rewrite Hmu, Hmf; [auto | congruence | apply Hq]. }
  split; [apply Hgen; reflexivity |]. split; [apply Hgen; reflexivity |].
  unfold agent_cycle.
  destruct (compute_confidence_frame ck w st) as (_ & _ & Hrecent & _).
  destruct (compute_confidence ck w st) as [[c d] st1]. simpl in Hrecent.
  destruct (Rle_dec _ _); [| auto].
  destruct (Hgen c d st1 Hrecent) as (Hf & Hu).
  destruct (snapshot_and_alert io c d st1 w) as [alert w']. auto.
Qed.

(** X16 at a concrete cycle: the log holds two files, the older one stays. *)
Lemma action_pipeline_leaves_other_files_witness :
  let older := ["srv"; "agent"; "demo_sandbox"; "keep.txt"]%string in
  let w := {| files := {[ older := [x01]; example_file := [x41; x42] ]}; unreadable := ∅ |} in
  let st := with_recent_modified_files [older; example_file] (example_threshold_state 0) in
  files (snd (@agent_cycle example_host example_eval_clock example_action_io st w)) !! older
  = Some [x01].
Proof.
  intros older w st.
  destruct (@action_pipeline_leaves_other_files example_host example_eval_clock
              example_action_io 0%R [] st w older) as (_ & _ & Hcycle & _).
  - intros name. vm_compute. discriminate.
  - intros name. vm_compute. discriminate.
  - vm_compute. discriminate.
  - rewrite Hcycle. reflexivity.
Defined.

(** ** Triggering twice in a row *)

Lemma agent_cycle_on_empty_log `{Host} ck io st w :
  recent_modified_files st = [] ->
  snd (agent_cycle ck io st w) = w
  /\ Forall (fun a => alert_snapshots a = []) (fst (fst (agent_cycle ck io st w))).
Proof.
  intros Hempty. unfold agent_cycle.
  destruct (compute_confidence_frame ck w st) as (_ & _ & Hrecent & _).
  destruct (compute_confidence ck w st) as [[c d] st1]. simpl in Hrecent.
  rewrite Hempty in Hrecent.
  destruct (Rle_dec _ _); [| split; [reflexivity | constructor]].
  unfold snapshot_and_alert, snapshot_targets, quarantine_target. rewrite Hrecent.
  simpl. split; [reflexivity |]. repeat constructor.
Qed.

(** X17. After a cycle that fired, a following cycle that finds no new file
    event changes nothing on disk, whatever its confidence: the log is
    empty, so an alert it broadcasts lists no snapshot and nothing is
    quarantined. *)
Theorem second_trigger_touches_no_file `{Host}
    (ck1 ck2 : eval_clock) (io1 io2 : action_io) (st : State) (w : World) :
  fst (fst (agent_cycle ck1 io1 st w)) <> [] ->
  let st1 := snd (fst (agent_cycle ck1 io1 st w)) in
  let w1 := snd (agent_cycle ck1 io1 st w) in
  recent_modified_files st1 = []
  /\ snd (agent_cycle ck2 io2 st1 w1) = w1
  /\ Forall (fun a => alert_snapshots a = []) (fst (fst (agent_cycle ck2 io2 st1 w1))).
Proof.
  intros Hfired st1 w1.
  assert (Hempty : recent_modified_files st1 = []).
  { unfold st1. unfold agent_cycle in *.
    destruct (compute_confidence ck1 w st) as [[c d] s1].
    destruct (Rle_dec _ _); [| simpl in Hfired; congruence].
    now destruct (snapshot_and_alert io1 c d s1 w). }
  split; [exact Hempty |]. now apply agent_cycle_on_empty_log.
Qed.

(** X17 at a concrete pair of cycles with the action threshold at 0. *)
Lemma second_trigger_touches_no_file_witness :
  let st := example_threshold_state 0 in
  let r1 := @agent_cycle example_host example_eval_clock example_action_io st example_world in
  length (fst (fst r1)) = 1%nat
  /\ snd (@agent_cycle example_host (mkEvalClock 5000000 5000001 5000002 5000003)
            example_action_io (snd (fst r1)) (snd r1))
     = snd r1.
Proof.
  intros st r1.
  assert (Hsizes : sizes_nonneg st).
  { unfold sizes_nonneg.
    replace (bytes_written_window st) with [(1000002, 2)] by (vm_compute; reflexivity).
    repeat constructor. simpl. lia. }
  assert (Hone : length (fst (fst r1)) = 1%nat).
  { unfold r1, agent_cycle.
    destruct (@compute_confidence_unit example_host example_eval_clock example_world st
                Hsizes) as (_ & Hlo & _).
    destruct (@compute_confidence_frame example_host example_eval_clock example_world st)
      as (Hcfg & _).
    destruct (@compute_confidence example_host example_eval_clock example_world st)
      as [[c d] s1]. simpl in *. rewrite Hcfg.
    destruct (Rle_dec _ _) as [Hge | Hlt]; [| exfalso; apply Hlt; exact Hlo].
    now destruct (snapshot_and_alert _ _ _ _ _). }
  split; [exact Hone |].
  apply (@second_trigger_touches_no_file example_host example_eval_clock
           (mkEvalClock 5000000 5000001 5000002 5000003) example_action_io
           example_action_io st example_world).
  intros Hnil. fold r1 in Hnil. rewrite Hnil in Hone. discriminate.
Defined.

(** ** Each detector's share of the confidence *)

Section Contribution.
Local Open Scope R_scope.

Lemma fuse_seven_contribution s1 s2 s3 s4 s5 s6 s7 :
  0 <= s1 -> 0 <= s2 -> 0 <= s3 -> 0 <= s4 -> 0 <= s5 -> 0 <= s6 -> 0 <= s7 ->
  let ds := [ ("file_rate"%string, s1); ("bytes_written"%string, s2);
              ("rename_spike"%string, s3); ("ransom_note"%string, s4);
              ("entropy"%string, s5); ("proc_behavior"%string, s6);
              ("ml_score"%string, s7) ] in
  Forall (fun kv => weights_get (fst kv) * snd kv / weight_sum <= fuse ds) ds.
Proof.
  intros H1 H2 H3 H4 H5 H6 H7 ds. subst ds.
  unfold fuse, weighted_sum, Rsum. rewrite weight_sum_value. simpl.
  unfold weights_get. simpl.
  repeat (apply List.Forall_cons;
          [simpl; apply Rmult_le_compat_r; [lra | nra] |]).
  apply List.Forall_nil.
Qed.
End Contribution.

(** X18. The confidence is at least the share of any single detector: for
    every entry of the breakdown, its weight times its score over the sum of
    the weights is a lower bound of the confidence. *)
Theorem confidence_at_least_each_share `{Host} (ck : eval_clock) (w : World) (st : State) :
  sizes_nonneg st ->
  let confidence := fst (fst (compute_confidence ck w st)) in
  let detectors := snd (fst (compute_confidence ck w st)) in
  Forall (fun kv => (weights_get (fst kv) * snd kv / weight_sum <= confidence)%R) detectors.
Proof.
  intros Hsizes confidence detectors.
  destruct (compute_confidence_unit ck w st Hsizes) as (Hall & _).
  subst confidence detectors. unfold compute_confidence in *.
  destruct (detect_file_rate_score _ _) as [s_file st1].
  destruct (detect_rename_score _ _) as [s_rename st2].
  destruct (detect_ml_score _ _ _) as [s_ml st3]. simpl in *.
  repeat match goal with
         | Hf : Forall _ (_ :: _) |- _ => inversion Hf; clear Hf; subst
         end.
  unfold in_unit_interval in *. simpl in *.
  apply fuse_seven_contribution; tauto.
Qed.

(** X18 at the concrete state of the detector examples. *)
Lemma confidence_at_least_each_share_witness :
  sizes_nonneg example_modified_state
  /\ Forall (fun kv => (weights_get (fst kv) * snd kv / weight_sum
                        <= fst (fst (@compute_confidence example_host example_eval_clock
                                       example_world example_modified_state)))%R)
            (snd (fst (@compute_confidence example_host example_eval_clock example_world
                         example_modified_state))).
Proof.
  assert (Hsizes : sizes_nonneg example_modified_state).
  { unfold sizes_nonneg.
    replace (bytes_written_window example_modified_state) with [(1000002, 2)]
      by (vm_compute; reflexivity).
    repeat constructor. simpl. lia. }
  split; [exact Hsizes |].
  now apply (@confidence_at_least_each_share example_host).
Defined.

(** ** A live ransom note is enough to trigger *)

Lemma confidence_ge_ransom_share `{Host} ck w st :
  sizes_nonneg st ->
  (2 / 10 * detect_ransom_note_score w st / (14 / 10)
   <= fst (fst (compute_confidence ck w st)))%R.
Proof.
  intros Hsizes.
  destruct (compute_confidence_unit ck w st Hsizes) as (Hall & _).
  destruct (compute_confidence_frame ck w st) as (_ & _ & Hrecent & _).
  unfold compute_confidence in *. unfold detect_ransom_note_score in *.
  destruct (detect_file_rate_score _ _) as [s_file st1] eqn:H1.
  destruct (detect_rename_score _ _) as [s_rename st2] eqn:H2.
  destruct (detect_ml_score _ _ _) as [s_ml st3] eqn:H3. simpl in *.
  assert (Hlog : recent_modified_files st2 = recent_modified_files st).
  { unfold detect_file_rate_score in H1. destruct (count _ _) in H1.
    unfold detect_rename_score in H2. destruct (count _ _) in H2.
    inversion H1; inversion H2; subst. reflexivity. }
  rewrite Hlog in *.
  repeat match goal with
         | Hf : Forall _ (_ :: _) |- _ => inversion Hf; clear Hf; subst
         end.
  unfold in_unit_interval in *. simpl in *.
  unfold fuse, weighted_sum, Rsum. rewrite weight_sum_value. simpl.
  unfold weights_get. simpl.
  apply Rmult_le_compat_r; [lra | nra].
Qed.

(** X19. A ransom note that is logged and exists triggers the action by
    itself whenever the action threshold is at most 1/7, as the default 0.05
    is: the confidence is then at least [0.20 / 1.40] and the cycle
    broadcasts its alert and clears the log. *)
Theorem live_ransom_note_triggers `{Host}
    (ck : eval_clock) (io : action_io) (st : State) (w : World) :
  sizes_nonneg st ->
  detect_ransom_note_score w st = 1%R ->
  (CONFIDENCE_ACTION_THRESHOLD (runtime_config st) <= 1 / 7)%R ->
  (1 / 7 <= fst (fst (compute_confidence ck w st)))%R
  /\ length (fst (fst (agent_cycle ck io st w))) = 1%nat
  /\ recent_modified_files (snd (fst (agent_cycle ck io st w))) = [].
Proof.
  intros Hsizes Hnote Hthr.
  pose proof (confidence_ge_ransom_share ck w st Hsizes) as Hshare.
  rewrite Hnote in Hshare.
  assert (Hconf : (1 / 7 <= fst (fst (compute_confidence ck w st)))%R) by lra.
  split; [exact Hconf |]. unfold agent_cycle.
  destruct (compute_confidence_frame ck w st) as (Hcfg & _).
  destruct (compute_confidence ck w st) as [[c d] st1]. simpl in *. rewrite Hcfg.
  destruct (Rle_dec _ _) as [Hge | Hlt]; [| exfalso; apply Hlt; lra].
  destruct (snapshot_and_alert io c d st1 w). split; reflexivity.
Qed.

(** X19 at a concrete state with the default thresholds. *)
Lemma live_ransom_note_triggers_witness :
  let note := ["srv"; "agent"; "demo_sandbox"; "HOW_TO_DECRYPT.html"]%string in
  let w := {| files := {[ note := [x41] ]}; unreadable := ∅ |} in
  let st := with_recent_modified_files [note] initial_state in
  length (fst (fst (@agent_cycle example_host example_eval_clock example_action_io st w)))
  = 1%nat.
Proof.
  intros note w st.
  apply (@live_ransom_note_triggers example_host example_eval_clock example_action_io st w).
  - constructor.
  - unfold detect_ransom_note_score. vm_compute. reflexivity.
  - simpl. lra.
Defined.

(** ** The recent-file log is bounded *)

Lemma deque_append_maxlen_spec maxlen p dq :
  (0 < maxlen)%nat ->
  length (deque_append_maxlen maxlen p dq) = Nat.min maxlen (length dq + 1)
  /\ List.last (deque_append_maxlen maxlen p dq) [] = p
  /\ (exists evicted, dq ++ [p] = evicted ++ deque_append_maxlen maxlen p dq)
  /\ ((length dq < maxlen)%nat -> deque_append_maxlen maxlen p dq = dq ++ [p]).
Proof.
  intros Hmax. unfold deque_append_maxlen.
  set (k := (length (dq ++ [p]) - maxlen)%nat).
  assert (Hlen : length (dq ++ [p]) = (length dq + 1)%nat) by (rewrite length_app; simpl; lia).
  assert (Hk : (k <= length dq)%nat) by (unfold k; lia).
  split; [rewrite length_skipn; unfold k; lia |]. split; [| split].
  - rewrite skipn_app. replace (k - length dq)%nat with 0%nat by lia. simpl.
    apply last_last.
  - exists (firstn k (dq ++ [p])). now rewrite firstn_skipn.
  - intros Hlt. replace k with 0%nat by (unfold k; lia). reflexivity.
Qed.

(** X20. A file event inside the monitored tree appends its path at the
    newest end of the log and keeps the log within 200 entries, evicting from
    the oldest end only when it is full; an event outside the tree changes
    nothing at all. *)
Theorem file_events_keep_log_bounded `{Host}
    (t_add t_prune : Z) (ck : modified_clock) (w : World) (path : list string) (st : State) :
  let created := on_created t_add t_prune path st in
  let modified := on_modified ck w path st in
  (inside_sandbox path = false -> created = st /\ modified = st)
  /\ (inside_sandbox path = true ->
        recent_modified_files created = recent_modified_files modified
        /\ length (recent_modified_files created)
           = Nat.min 200 (length (recent_modified_files st) + 1)
        /\ List.last (recent_modified_files created) [] = path
        /\ (exists evicted,
              recent_modified_files st ++ [path]
              = evicted ++ recent_modified_files created)
        /\ ((length (recent_modified_files st) < 200)%nat ->
            recent_modified_files created = recent_modified_files st ++ [path])).
Proof.
  intros created modified. subst created modified. unfold on_created, on_modified.
  split.
  - intros ->. simpl. auto.
  - intros ->. simpl. split; [reflexivity |].
    apply deque_append_maxlen_spec. lia.
Qed.

(** X20 at a concrete event on a full log. *)
Lemma file_events_keep_log_bounded_witness :
  let full := with_recent_modified_files (repeat example_file 200) initial_state in
  length (recent_modified_files
            (@on_created example_host 1000000 1000001 example_file full))
  = 200%nat.
Proof.
  intros full.
  destruct (@file_events_keep_log_bounded example_host 1000000 1000001
              (mkModifiedClock 0 0 0 0) example_world example_file full) as (_ & Hin).
  destruct Hin as (_ & Hlen & _); [vm_compute; reflexivity |].
  rewrite Hlen. unfold full. cbn [recent_modified_files with_recent_modified_files].
  rewrite repeat_length. reflexivity.
Defined.

(** ** From file events to the file-rate score *)




(** ** Snapshots of files with the same name *)

(** X22. The artifact name is built from the file's name and the time stamp
    only: when two files of the same name in different directories are
    snapshotted with the same stamp, both calls return but the second
    artifact replaces the first, so one artifact remains and it holds the
    second file. *)
Theorem same_name_snapshots_collide `{Host}
    (io1 io2 : snapshot_io) (p1 p2 backup_dir : list string) (w w1 w2 : World) :
  path_name p1 = path_name p2 ->
  strftime_stamp (snap_stamp io1) = strftime_stamp (snap_stamp io2) ->
  encrypt_and_store io1 p1 backup_dir w = (Returned tt, w1) ->
  encrypt_and_store io2 p2 backup_dir w1 = (Returned tt, w2) ->
  let dest := path_join backup_dir (snapshot_name p2 (snap_stamp io2)) in
  path_join backup_dir (snapshot_name p1 (snap_stamp io1)) = dest
  /\ (exists data2 ct2,
        open_read w1 p2 = Some data2
        /\ aes_encrypt AESGCM_KEY (snap_nonce io2) data2 = Some ct2
        /\ files w2 = <[dest := snap_nonce io2 ++ ct2]> (files w))
  /\ (forall q, q <> dest -> files w2 !! q = files w !! q).
Proof.
  intros Hname Hstamp H1 H2 dest.
  assert (Hdest : path_join backup_dir (snapshot_name p1 (snap_stamp io1)) = dest).
  { unfold dest, snapshot_name. now rewrite Hname, Hstamp. }
  destruct (encrypt_and_store_returned _ _ _ _ _ _ H1) as (data1 & ct1 & _ & _ & Hw1).
  destruct (encrypt_and_store_returned _ _ _ _ _ _ H2) as (data2 & ct2 & Hr2 & He2 & Hw2).
  rewrite Hdest in Hw1. fold dest in Hw2.
  assert (Hfiles : files w2 = <[dest := snap_nonce io2 ++ ct2]> (files w)).
  { rewrite Hw2, Hw1. simpl. apply insert_insert_eq. }
  split; [exact Hdest |]. split; [exists data2, ct2; auto |].
  intros q Hq. rewrite Hfiles. now rewrite lookup_insert_ne.
Qed.

(** X22 at two concrete files named [a.txt]. *)
Lemma same_name_snapshots_collide_witness :
  let other := ["srv"; "agent"; "demo_sandbox"; "sub"; "a.txt"]%string in
  let w := {| files := {[ example_file := [x41; x42]; other := [x43] ]}; unreadable := ∅ |} in
  let io := mkSnapshotIO true (repeat x07 12) 1700000000000000 WriteOk in
  let backup := @BACKUP_DIR example_host in
  let w1 := snd (@encrypt_and_store example_host io example_file backup w) in
  let w2 := snd (@encrypt_and_store example_host io other backup w1) in
  files w2 !! ["srv"; "agent"; "demo_backups"; "a.txt.1700000000.enc"]%string
  = Some (repeat x07 12 ++ [x43] ++ repeat xff 16)
  /\ size (files w2) = 3%nat.
Proof.
  intros other w io backup w1 w2.
  assert (H1 : @encrypt_and_store example_host io example_file backup w = (Returned tt, w1))
    by (vm_compute; reflexivity).
  assert (H2 : @encrypt_and_store example_host io other backup w1 = (Returned tt, w2))
    by (vm_compute; reflexivity).
  destruct (@same_name_snapshots_collide example_host io io example_file other backup
              w w1 w2 eq_refl eq_refl H1 H2) as (_ & (data2 & ct2 & _ & _ & Hfiles) & _).
  split; vm_compute; reflexivity.
Defined.

(** ** Byte samples do not expire on their own *)

Lemma agent_cycle_frame `{Host} ck io st w :
  let st' := snd (fst (agent_cycle ck io st w)) in
  runtime_config st' = runtime_config st
  /\ bytes_written_window st' = bytes_written_window st
  /\ proc_writes st' = proc_writes st.
Proof.
  unfold agent_cycle.
  destruct (compute_confidence_frame ck w st) as (Hcfg & Hbytes & _ & Hproc & _).
  destruct (compute_confidence ck w st) as [[c d] st1]. simpl in *.
  destruct (Rle_dec _ _); [destruct (snapshot_and_alert io c d st1 w) |]; simpl; auto.
Qed.

(** X23. Nothing but [on_modified] writes or prunes the byte-sample window:
    an evaluation cycle, a status call, a creation or move event and a sweep
    of the process monitor each leave the window and the configuration as
    they were, so the [bytes_written] score read afterwards, however late, is
    the score read before. *)
Theorem byte_samples_outlive_evaluations `{Host}
    (ck : eval_clock) (io : action_io) (w : World) (t_add t_prune : Z)
    (path : list string) (procs : list proc_sample) (st : State) :
  let unchanged st' :=
    bytes_written_window st' = bytes_written_window st
    /\ detect_bytes_written_score st' = detect_bytes_written_score st in
  unchanged (snd (fst (agent_cycle ck io st w)))
  /\ unchanged (snd (status ck w st))
  /\ unchanged (on_created t_add t_prune path st)
  /\ unchanged (on_moved t_add t_prune path st)
  /\ unchanged (process_monitor_sweep procs st).
Proof.
  intros unchanged.
  assert (Hscore : forall st', runtime_config st' = runtime_config st ->
                     bytes_written_window st' = bytes_written_window st ->
                     unchanged st').
  { intros st' Hcfg Hbytes. split; [exact Hbytes |].
    unfold detect_bytes_written_score. now rewrite Hcfg, Hbytes. }
  split; [| split; [| split; [| split]]].
  - destruct (agent_cycle_frame ck io st w) as (Hcfg & Hbytes & _). now apply Hscore.
  - destruct (compute_confidence_frame ck w st) as (Hcfg & Hbytes & _).
    unfold status. destruct (compute_confidence ck w st) as [[c d] st1]. now apply Hscore.
  - unfold on_created. destruct (negb (inside_sandbox path)); now apply Hscore.
  - unfold on_moved. destruct (negb (inside_sandbox path)); now apply Hscore.
  - destruct (process_monitor_sweep_frame procs st) as (Hcfg & _ & _ & Hbytes & _).
    now apply Hscore.
Qed.

(** ** Fusion is monotone *)

Section FusionMonotone.
Local Open Scope R_scope.

Lemma weights_get_nonneg k : 0 <= weights_get k.
Proof.
  assert (Hall : List.Forall (fun kv : string * R => 0 <= snd kv) WEIGHTS).
  { unfold WEIGHTS. repeat (constructor; [simpl; lra |]). constructor. }
  unfold weights_get.
  destruct (List.find _ WEIGHTS) as [kv |] eqn:Hfind; [| lra].
  apply List.find_some in Hfind as [Hin _].
  exact (proj1 (List.Forall_forall _ _) Hall kv Hin).
Qed.

Lemma weighted_fold_monotone ds ds' : forall acc acc',
  acc <= acc' ->
  Forall2 (fun a b : string * R => fst a = fst b /\ snd a <= snd b) ds ds' ->
  fold_left Rplus (map (fun kv => weights_get (fst kv) * snd kv) ds) acc
  <= fold_left Rplus (map (fun kv => weights_get (fst kv) * snd kv) ds') acc'.
Proof.
  intros acc acc' Hacc Hall. revert acc acc' Hacc.
  induction Hall as [|a b ds ds' (Hk & Hv) Hrest IH]; intros acc acc' Hacc; simpl;
    [exact Hacc |].
  apply IH. rewrite Hk. pose proof (weights_get_nonneg (fst b)). nra.
Qed.
End FusionMonotone.

(** X24. Raising detector scores never lowers the confidence: for two
    breakdowns with the same detector names in the same order, the second
    with scores at least those of the first, the fused confidence of the
    second is at least that of the first. *)
Theorem fuse_is_monotone (ds ds' : list (string * R)) :
  Forall2 (fun a b : string * R => fst a = fst b /\ (snd a <= snd b)%R) ds ds' ->
  (fuse ds <= fuse ds')%R.
Proof.
  intros Hall. unfold fuse, weighted_sum, Rsum. rewrite weight_sum_value.
  apply Rmult_le_compat_r; [lra |].
  apply weighted_fold_monotone; [lra | exact Hall].
Qed.

(** X24 at two concrete breakdowns. *)
Lemma fuse_is_monotone_witness :
  (fuse [("file_rate"%string, 2 / 10); ("entropy"%string, 0)]
   <= fuse [("file_rate"%string, 1); ("entropy"%string, 1 / 2)])%R.
Proof.
  apply fuse_is_monotone.
  repeat (constructor; [split; [reflexivity | simpl; lra] |]). constructor.
Defined.

(** ** The pool of URL variants *)

Lemma lookup_map_list {A B} (f : A -> B) (l : list A) : forall i : nat,
  map f l !! i = f <$> (l !! i).
Proof.
  induction l as [|x l IH]; intros [|i]; simpl; auto.
Qed.

(** X25. [generate_url_variants] yields [n] pairwise distinct URLs, each the
    base followed by ["/v"] and its index. *)
Theorem url_variants_are_distinct (base : string) (n : nat) :
  length (generate_url_variants base n) = n
  /\ List.NoDup (generate_url_variants base n)
  /\ (forall i, (i < n)%nat ->
        generate_url_variants base n !! i = Some (base ++ "/v" ++ pretty i)%string).
Proof.
  unfold generate_url_variants. split; [now rewrite length_map, length_seq |]. split.
  - apply Finite.Injective_map_NoDup; [| apply List.seq_NoDup].
    intros i j Heq. apply (inj (String.append base)) in Heq.
    apply (inj (String.append "/v")) in Heq. now apply (inj pretty) in Heq.
  - intros i Hi. rewrite lookup_map_list, lookup_seq_lt by exact Hi. reflexivity.
Qed.
